(** * auto_release.py: the release automation script of the WildestAI
      VSCode extension, embedded and verified.

    The script is a linear sequence of side-effecting steps (read a file,
    run a shell command, call an API, write a file).  It is embedded as a
    state-and-exception monad over an explicit [World]; the external
    collaborators (the shell, the JSON reader, the completion API, the
    schema validator, the clock) are variables of a section. *)

From Stdlib Require Import Ascii String ZArith List Lia.
From stdpp Require Import base option gmap strings pretty.

Local Open Scope string_scope.
Local Open Scope list_scope.
Local Open Scope stdpp_scope.

(* stdpp blocks the unfolding of [String.append]; the text lemmas below
   compute with it. *)
Local Arguments String.append !_ _ / : simpl nomatch.

(** ** Text

    A Python [str] is modelled as a [string]; the character type only
    matters through equality with the characters of the pattern. *)

Module Text.

(** The newline character, [\n]. *)
Definition nl : ascii := "010"%char.

(** The one-character string holding a newline. *)
Definition NL : string := String nl "".

(** [s[:n]] for [0 <= n]. *)
Fixpoint slice_to (n : nat) (s : string) : string :=
  match n, s with
  | S n', String c s' => String c (slice_to n' s')
  | _, _ => ""
  end.

(** [s[n:]] for [0 <= n]. *)
Fixpoint slice_from (n : nat) (s : string) : string :=
  match n, s with
  | S n', String _ s' => slice_from n' s'
  | _, _ => s
  end.

(** Index of the first newline of [s]. *)
Fixpoint find_nl (s : string) : option nat :=
  match s with
  | "" => None
  | String c s' => if Ascii.eqb c nl then Some 0 else S <$> find_nl s'
  end.

(** Number of newlines of [s]. *)
Fixpoint count_nl (s : string) : nat :=
  match s with
  | "" => 0
  | String c s' => (if Ascii.eqb c nl then 1 else 0) + count_nl s'
  end.

(** Offset just after the second newline of [s]. *)
Definition two_lines_end (s : string) : option nat :=
  match find_nl s with
  | Some k1 =>
      match find_nl (slice_from (S k1) s) with
      | Some k2 => Some (S k1 + S k2)
      | None => None
      end
  | None => None
  end.

(** [m] occurs in [s] at offset [j]. *)
Definition occurs_at (m s : string) (j : nat) : Prop :=
  String.prefix m (slice_from j s) = true.

(** [s.find(m)]: the offset of the first occurrence of [m] in [s];
    [None] where Python gives -1. *)
Fixpoint find (m s : string) : option nat :=
  if String.prefix m s then Some 0
  else match s with
       | "" => None
       | String _ s' => S <$> find m s'
       end.

(** Cutting [len] characters out of [s] at offset [p]. *)
Definition remove_span (p len : nat) (s : string) : string :=
  slice_to p s +:+ slice_from (p + len) s.

End Text.

(** ** Regular expressions

    The fragment of Python's [re] that [update_changelog] uses: literal
    characters and the lazy [.*?] under [re.DOTALL] (where [.] matches
    every character, newline included).  The matcher is the backtracking
    one: a lazy star first tries the rest of the pattern, and consumes one
    more character only when the rest fails.  The capture group of the
    pattern records a sub-span and has no effect on [end()]; it is left
    out. *)

Module Regex.
Import Text.

Inductive item : Type :=
| Chr (c : ascii)
| LazyAny.

Definition regex : Type := list item.

(** [.*?k]: the shortest run of characters after which [k] matches. *)
Fixpoint lazy_any (k : string -> option nat) (s : string) : option nat :=
  match k s with
  | Some n => Some n
  | None =>
      match s with
      | "" => None
      | String _ s' => S <$> lazy_any k s'
      end
  end.

(** Number of characters consumed by the first (in backtracking order)
    match of [r] at the start of the text. *)
Fixpoint match_here (r : regex) : string -> option nat :=
  match r with
  | [] => fun _ => Some 0
  | Chr c :: r' =>
      fun s =>
        match s with
        | String c' s' =>
            if Ascii.eqb c c' then S <$> match_here r' s' else None
        | "" => None
        end
  | LazyAny :: r' => lazy_any (match_here r')
  end.

Fixpoint search_from (r : regex) (s : string) (start : nat)
  : option (nat * nat) :=
  match match_here r s with
  | Some n => Some (start, start + n)
  | None =>
      match s with
      | "" => None
      | String _ s' => search_from r s' (S start)
      end
  end.

(** [re.search(r, s, re.DOTALL)]: the span [(start(), end())] of the
    leftmost match. *)
Definition search (r : regex) (s : string) : option (nat * nat) :=
  search_from r s 0.

Definition literal (s : string) : regex := Chr <$> list_ascii_of_string s.

End Regex.

(** ** The process: exceptions, events, world, monad *)

(** What a Python computation can raise.  [sys.exit(n)] raises
    [SystemExit], which is not an [Exception]; [subprocess.run] raises
    [CalledProcessError], which keeps the command, its status and the
    captured streams; [Exception cls msg] stands for every other exception
    of class [Exception], with its class name and its [str()]. *)
Inductive exn : Type :=
| SystemExit (code : Z)
| CalledProcessError (cmd : string) (returncode : Z) (output stderr : string)
| Exception (cls msg : string).

(** [isinstance(e, Exception)]: what [except Exception] catches. *)
Definition is_Exception (e : exn) : bool :=
  match e with
  | SystemExit _ => false
  | _ => true
  end.

(** The effects of the script that are visible from outside, in the order
    they happen.  [Traceback cls msg] is the traceback that the interpreter
    (or [traceback.print_exc]) writes to the error stream: it ends with the
    class of the exception and its [str()]. *)
Inductive event : Type :=
| Print (line : string)
| Traceback (cls msg : string)
| ReadFile (path : string)
| WriteFile (path text : string)
| AppendFile (path text : string)
| Run (cmd : string)
| ApiCall (prompt : string).

Record World : Type := mkWorld {
  environ : gmap string string;
  files : gmap string string;
  trace : list event
}.

Inductive result (A : Type) : Type :=
| Ok (a : A)
| Raise (e : exn).
Arguments Ok {A} a.
Arguments Raise {A} e.

Definition M (A : Type) : Type := World -> result A * World.

#[global] Instance M_ret : MRet M := fun A a w => (Ok a, w).

#[global] Instance M_bind : MBind M := fun A B f m w =>
  match m w with
  | (Ok a, w') => f a w'
  | (Raise e, w') => (Raise e, w')
  end.

Definition raise {A : Type} (e : exn) : M A := fun w => (Raise e, w).

Definition emit (ev : event) (w : World) : World :=
  mkWorld (environ w) (files w) (trace w ++ [ev]).

Definition set_files (fs : gmap string string) (w : World) : World :=
  mkWorld (environ w) fs (trace w).

(** [try: body except Exception as e: handler(e)] *)
Definition try_except {A : Type} (body : M A) (handler : exn -> M A) : M A :=
  fun w =>
    match body w with
    | (Ok a, w') => (Ok a, w')
    | (Raise e, w') =>
        if is_Exception e then handler e w' else (Raise e, w')
    end.

(** [print(line)] *)
Definition print (line : string) : M unit :=
  fun w => (Ok tt, emit (Print line) w).

(** [sys.exit(code)] *)
Definition sys_exit {A : Type} (code : Z) : M A := raise (SystemExit code).

(** [os.getenv(name)] *)
Definition getenv (name : string) : M (option string) :=
  fun w => (Ok (environ w !! name), w).

(** [os.getenv(name, default)] *)
Definition getenv_default (name dflt : string) : M string :=
  fun w => (Ok (default dflt (environ w !! name)), w).

(** [not x] for an optional string: [None] and the empty string are
    false values. *)
Definition not_ (x : option string) : bool :=
  match x with
  | None => true
  | Some s => String.eqb s ""
  end.

(** An optional string inside an f-string. *)
Definition fstr (x : option string) : string := default "None" x.

(** [with open(path, "r") as f: f.read()] *)
Definition read_file (path : string) : M string :=
  fun w =>
    match files w !! path with
    | Some text => (Ok text, emit (ReadFile path) w)
    | None =>
        (Raise (Exception "FileNotFoundError"
                  ("[Errno 2] No such file or directory: '" +:+ path +:+ "'")),
         w)
    end.

(** [with open(path, "w") as f: f.write(text)] *)
Definition write_file (path text : string) : M unit :=
  fun w => (Ok tt, emit (WriteFile path text) (set_files (<[path := text]> (files w)) w)).

(** [f.write(text)] on a file opened with [open(path, "a")] *)
Definition append_file (path text : string) : M unit :=
  fun w =>
    let old := default "" (files w !! path) in
    (Ok tt, emit (AppendFile path text)
              (set_files (<[path := old +:+ text]> (files w)) w)).

(** Whitespace as [str.isspace] has it, for the code points below 256. *)
Definition is_space (c : ascii) : bool :=
  let n := N_of_ascii c in
  ((9 <=? n) && (n <=? 13) || (28 <=? n) && (n <=? 32)
   || (n =? 133) || (n =? 160))%N.

Fixpoint lstrip (s : string) : string :=
  match s with
  | String c s' => if is_space c then lstrip s' else s
  | "" => ""
  end.

Definition rstrip (s : string) : string := String.rev (lstrip (String.rev s)).

(** [s.strip()] *)
Definition strip (s : string) : string := lstrip (rstrip s).

(** [subprocess.CompletedProcess] *)
Record CompletedProcess : Type := mkCompleted {
  returncode : Z;
  stdout : string;
  stderr : string
}.

(** [VersionAnalysis]: the structured output of the version analysis. *)
Record VersionAnalysis : Type := mkAnalysis {
  version_bump : string;
  new_version : string;
  changelog_entry : string
}.

(** The dictionary that [get_pr_details] returns has exactly these three
    keys. *)
Record PrDetails : Type := mkPr {
  title : string;
  body : string;
  commits : string
}.

(** The external collaborators of the script.
    - [shell cmd fs]: what running [cmd] through the shell gives, and the
      files it leaves;
    - [json_version text]: [json.load(f)["version"]] on a file holding
      [text], or the class and message of the exception it raises;
    - [messages_create api_key prompt]: the text of the first content block
      of the completion, or the class and message of the exception that the
      call (or the access to the block) raises;
    - [model_validate_json text]: pydantic's validation of [text] against
      [VersionAnalysis];
    - [today]: [date.today().isoformat()];
    - [CalledProcessError_str cmd returncode]: the [str()] of a
      [CalledProcessError], which Python builds from the command and the
      exit status alone. *)
Record Externals : Type := mkExternals {
  shell : string -> gmap string string ->
          CompletedProcess * gmap string string;
  json_version : string -> (string * string) + string;
  messages_create : string -> string -> (string * string) + string;
  model_validate_json : string -> (string * string) + VersionAnalysis;
  today : string;
  CalledProcessError_str : string -> Z -> string
}.


(** ** The script *)

Section Script.

Context (X : Externals).

Definition exn_class (e : exn) : string :=
  match e with
  | SystemExit _ => "SystemExit"
  | CalledProcessError _ _ _ _ => "subprocess.CalledProcessError"
  | Exception cls _ => cls
  end.

(** [str(e)] *)
Definition exn_str (e : exn) : string :=
  match e with
  | SystemExit code => pretty code
  | CalledProcessError cmd rc _ _ => CalledProcessError_str X cmd rc
  | Exception _ msg => msg
  end.

(** [traceback.print_exc()] inside the handler of [e] *)
Definition print_exc (e : exn) : M unit :=
  fun w => (Ok tt, emit (Traceback (exn_class e) (exn_str e)) w).

Definition lift {A : Type} (r : (string * string) + A) : M A :=
  match r with
  | inl (cls, msg) => raise (Exception cls msg)
  | inr a => mret a
  end.

(** [subprocess.run(cmd, shell=True, capture_output=True, text=True,
    check=check)]: with [check] set, a non-zero exit status raises
    [CalledProcessError] instead of returning. *)
Definition subprocess_run (cmd : string) (check : bool)
  : M CompletedProcess :=
  fun w =>
    let '(p, fs) := shell X cmd (files w) in
    let w' := emit (Run cmd) (set_files fs w) in
    if check && negb (returncode p =? 0)%Z
    then (Raise (CalledProcessError cmd (returncode p) (stdout p) (stderr p)),
          w')
    else (Ok p, w').

Definition run_command (cmd : string) (check : bool) : M string :=
  print ("Running: " +:+ cmd);;
  result ← subprocess_run cmd check;
  if negb (returncode result =? 0)%Z && check
  then
    print ("Error: " +:+ stderr result);;
    sys_exit 1
  else mret (strip (stdout result)).

Definition get_current_version : M string :=
  text ← read_file "package.json";
  lift (json_version X text).

Definition get_pr_details (base_sha head_sha : string) : M PrDetails :=
  pr_title ← getenv_default "PR_TITLE" "";
  pr_body ← getenv_default "PR_BODY" "No description provided";
  commits ← run_command
    ("git log --format='%s%n%b' " +:+ base_sha +:+ ".." +:+ head_sha) true;
  mret (mkPr pr_title pr_body commits).

Definition unlines (ls : list string) : string := String.concat Text.NL ls.

Definition prompt (current_version : string) (pr_details : PrDetails)
  : string :=
  unlines [
    "You are analyzing a merged pull request to determine the appropriate semantic version bump and generate a changelog entry.";
    "";
    "Current version: " +:+ current_version;
    "";
    "PR Title: " +:+ title pr_details;
    "";
    "PR Description:";
    body pr_details;
    "";
    "Commit messages:";
    commits pr_details;
    "";
    "Based on semantic versioning rules:";
    "- PATCH (x.x.X): Bug fixes, documentation, minor improvements that don't add features";
    "- MINOR (x.X.x): New features, enhancements (backward compatible)";
    "- MAJOR (X.x.x): Breaking changes";
    "";
    "Analyze the changes and provide:";
    "1. The type of version bump needed (patch, minor, or major)";
    "2. The new version number calculated from the current version";
    "3. A changelog entry in markdown format";
    "";
    "Guidelines for changelog:";
    "- Use today's date: " +:+ today X;
    "- Only include user-facing changes that affect the published extension";
    "- Be specific and accurate about what was fixed or added";
    "- Use categories: ### Fixed, ### Added, ### Changed, ### Removed";
    "- Focus on what users will experience, not implementation details";
    "- Don't mention internal refactorings unless they affect user experience";
    "- Start with ## [X.Y.Z] - YYYY-MM-DD format"
  ].

(** [client.messages.create(...)] followed by
    [message.content[0].text] *)
Definition create_message (api_key text : string) : M string :=
  fun w =>
    match messages_create X api_key text with
    | inl (cls, msg) => (Raise (Exception cls msg), emit (ApiCall text) w)
    | inr content => (Ok content, emit (ApiCall text) w)
    end.

Definition analyze_version_bump (current_version : string)
    (pr_details : PrDetails) : M (string * string * string) :=
  api_key ← getenv "ANTHROPIC_API_KEY";
  if not_ api_key
  then
    print "Error: ANTHROPIC_API_KEY environment variable not set";;
    sys_exit 1
  else
    try_except
      (content ← create_message (fstr api_key)
                   (prompt current_version pr_details);
       print ("Claude response: " +:+ content);;
       result ← lift (model_validate_json X content);
       mret (version_bump result, new_version result,
             changelog_entry result))
      (fun e =>
         print ("Error calling Claude API: " +:+ exn_str e);;
         print_exc e;;
         sys_exit 1).

Definition update_package_json (new_version : string) : M unit :=
  print ("Updating package.json to version " +:+ new_version);;
  run_command ("npm version " +:+ new_version +:+ " --no-git-tag-version")
    true;;
  mret tt.

(** [r'## \[Unreleased\].*?\n(.*?\n)'] *)
Definition unreleased_marker : string := "## [Unreleased]".

Definition unreleased_re : Regex.regex :=
  (Regex.literal unreleased_marker ++
   [Regex.LazyAny; Regex.Chr Text.nl; Regex.LazyAny; Regex.Chr Text.nl])%list.

Definition update_changelog (changelog_entry : string) : M unit :=
  print "Updating CHANGELOG.md";;
  content ← read_file "CHANGELOG.md";
  match Regex.search unreleased_re content with
  | None =>
      print "Error: Could not find [Unreleased] section in CHANGELOG.md";;
      sys_exit 1
  | Some (_, insert_pos) =>
      let new_content :=
        Text.slice_to insert_pos content +:+
        Text.NL +:+ changelog_entry +:+ Text.NL +:+ Text.NL +:+
        Text.slice_from insert_pos content in
      write_file "CHANGELOG.md" new_content
  end.

Definition commit_and_push (new_version : string) : M unit :=
  print "Committing version changes";;
  run_command "git config user.name 'github-actions[bot]'" true;;
  run_command
    "git config user.email 'github-actions[bot]@users.noreply.github.com'"
    true;;
  run_command "git add package.json package-lock.json CHANGELOG.md" true;;
  run_command
    ("git commit -m 'chore: bump version to " +:+ new_version +:+
     " [skip ci]'") true;;
  run_command "git push" true;;
  mret tt.

Definition publish_extension : M unit :=
  vsce_token ← getenv "WILDESTAI_AZURE_PUBLISH_PAT";
  ovsx_token ← getenv "OPENVSX_TOKEN";
  if not_ vsce_token || not_ ovsx_token
  then
    print "Error: WILDESTAI_AZURE_PUBLISH_PAT or OPENVSX_TOKEN not set";;
    sys_exit 1
  else
    print "Installing vsce and ovsx";;
    run_command "npm install -g @vscode/vsce ovsx" true;;
    print "Building extension";;
    run_command "npm run package" true;;
    print "Publishing to VSCode Marketplace";;
    run_command ("vsce publish -p " +:+ fstr vsce_token) true;;
    print "Publishing to Open VSX";;
    run_command ("ovsx publish -p " +:+ fstr ovsx_token) true;;
    mret tt.

Definition create_git_tag (new_version : string) : M unit :=
  print ("Creating git tag v" +:+ new_version);;
  run_command
    ("git tag -a 'v" +:+ new_version +:+ "' -m 'Release version " +:+
     new_version +:+ "'") true;;
  run_command "git push --tags" true;;
  mret tt.

Definition main : M unit :=
  print "=== Starting automated release process ===";;
  base_sha ← getenv "BASE_SHA";
  head_sha ← getenv "HEAD_SHA";
  if not_ base_sha || not_ head_sha
  then
    print "Error: BASE_SHA or HEAD_SHA not set";;
    sys_exit 1
  else
    current_version ← get_current_version;
    print ("Current version: " +:+ current_version);;
    pr_details ← get_pr_details (fstr base_sha) (fstr head_sha);
    print ("PR Title: " +:+ title pr_details);;
    '(version_bump, new_version, changelog_entry) ←
      analyze_version_bump current_version pr_details;
    print ("Version bump: " +:+ version_bump);;
    print ("New version: " +:+ new_version);;
    print ("Changelog:" +:+ Text.NL +:+ changelog_entry);;
    update_package_json new_version;;
    update_changelog changelog_entry;;
    commit_and_push new_version;;
    publish_extension;;
    create_git_tag new_version;;
    print "=== Release process completed successfully ===";;
    print ("Version " +:+ new_version +:+ " has been published!");;
    github_output ← getenv "GITHUB_OUTPUT";
    if not_ github_output
    then mret tt
    else
      append_file (fstr github_output)
        ("new_version=" +:+ new_version +:+ Text.NL);;
      append_file (fstr github_output)
        ("changelog<<EOF" +:+ Text.NL +:+ changelog_entry +:+ Text.NL +:+
         "EOF" +:+ Text.NL).

(** The exit status of the interpreter for an exception that reaches the
    top level: the code of a [SystemExit], 1 for anything else. *)
Definition exit_code (e : exn) : Z :=
  match e with
  | SystemExit code => Z.land code 255
  | _ => 1
  end.

(** [if __name__ == "__main__": main()], as the interpreter runs it: the
    exit status and the final world.  An exception other than
    [SystemExit] is reported with a traceback on the error stream. *)
Definition script (w : World) : Z * World :=
  match main w with
  | (Ok _, w') => (0%Z, w')
  | (Raise (SystemExit code), w') => (exit_code (SystemExit code), w')
  | (Raise e, w') =>
      (exit_code e, emit (Traceback (exn_class e) (exn_str e)) w')
  end.

End Script.

(** ** Names for the statements about the changelog splice *)

Module Splice.
Import Text.

Definition marker_len : nat := String.length unreleased_marker.

(** What [update_changelog] puts around the entry. *)
Definition block (entry : string) : string := NL +:+ entry +:+ NL +:+ NL.

(** The world after [update_changelog] has written [text]. *)
Definition written (text : string) (w : World) : World :=
  emit (WriteFile "CHANGELOG.md" text)
    (set_files (<["CHANGELOG.md" := text]> (files w))
       (emit (ReadFile "CHANGELOG.md")
          (emit (Print "Updating CHANGELOG.md") w))).

(** The world after [update_changelog] has given up. *)
Definition refused (w : World) : World :=
  emit (Print "Error: Could not find [Unreleased] section in CHANGELOG.md")
    (emit (ReadFile "CHANGELOG.md")
       (emit (Print "Updating CHANGELOG.md") w)).

(** A changelog up to the end of the line that follows the marker line:
    [pre], the marker, the rest of its line, and one more line. *)
Definition upto_line (pre rest line : string) : string :=
  pre +:+ unreleased_marker +:+ rest +:+ NL +:+ line +:+ NL.

End Splice.

(** ** Properties of runs

    A policy is a boolean predicate on events.  [run_spec P Q m w]: started
    in [w], the computation [m] leaves the environment as it is, only adds
    events that [P] allows, and ends with a result that satisfies [Q]. *)

Module Runs.

Definition run_spec {A : Type} (P : event -> bool) (Q : result A -> Prop)
    (m : M A) (w : World) : Prop :=
  environ (m w).2 = environ w /\
  (exists evs, trace (m w).2 = trace w ++ evs /\
               Forall (fun ev => P ev = true) evs) /\
  Q (m w).1.

(** A raised exception ends the process with a non-zero status. *)
Definition fails_loudly {A : Type} (r : result A) : Prop :=
  forall e, r = Raise e -> exit_code e <> 0%Z.

Definition never_returns {A : Type} (r : result A) : Prop :=
  exists e, r = Raise e /\ exit_code e <> 0%Z.

(** In every world [m] keeps to the policy and, when it raises, the exit
    status is not zero. *)
Definition sound {A : Type} (P : event -> bool) (m : M A) : Prop :=
  forall w, run_spec P fails_loudly m w.

(** Started in [w], [m] keeps to the policy and does not return. *)
Definition aborts {A : Type} (P : event -> bool) (m : M A) (w : World)
  : Prop :=
  run_spec P never_returns m w.

(** Output on the two streams. *)
Definition is_output (ev : event) : bool :=
  match ev with
  | Print _ | Traceback _ _ => true
  | _ => false
  end.

Definition is_append (ev : event) : bool :=
  match ev with
  | AppendFile _ _ => true
  | _ => false
  end.

(** Commands of the publish and tag steps: installing the publishing
    tools, building the package, publishing it, tagging. *)
Definition is_release_cmd (cmd : string) : bool :=
  String.prefix "npm install" cmd || String.prefix "npm run" cmd
  || String.prefix "vsce " cmd || String.prefix "ovsx " cmd
  || String.prefix "git tag" cmd || String.eqb cmd "git push --tags".

(** Policy: nothing is installed, built, published or tagged. *)
Definition nothing_released (ev : event) : bool :=
  match ev with
  | Run cmd => negb (is_release_cmd cmd)
  | _ => true
  end.

(** Policy: output, reading files, and [git log]; no file is written, no
    other command is run, the API is not called. *)
Definition only_reads (ev : event) : bool :=
  match ev with
  | Print _ | Traceback _ _ | ReadFile _ => true
  | Run cmd => String.prefix "git log " cmd
  | _ => false
  end.

(** Policy: as [only_reads], and calls of the API. *)
Definition reads_and_asks (ev : event) : bool :=
  match ev with
  | ApiCall _ => true
  | _ => only_reads ev
  end.

(** The completion API or the validation of its answer fails, whatever
    the request. *)
Definition decision_fails (X : Externals) : Prop :=
  forall api_key text,
    match messages_create X api_key text with
    | inl _ => True
    | inr content =>
        match model_validate_json X content with
        | inl _ => True
        | inr _ => False
        end
    end.

(** Policy: everything but appending to a file. *)
Definition no_append (ev : event) : bool := negb (is_append ev).

(** The world after [run_command cmd]: the command line is printed,
    then the command runs and leaves its files. *)
Definition ran (X : Externals) (cmd : string) (w : World) : World :=
  emit (Run cmd)
    (set_files (shell X cmd (files w)).2
       (emit (Print ("Running: " +:+ cmd)) w)).

(** [w'] is reached from [w] by events that [P] allows. *)
Definition reach (P : event -> bool) (w w' : World) : Prop :=
  environ w' = environ w /\
  exists evs, trace w' = trace w ++ evs /\
              Forall (fun ev => P ev = true) evs.

(** The environment variables that the script requires. *)
Definition required : list string :=
  ["BASE_SHA"; "HEAD_SHA"; "ANTHROPIC_API_KEY";
   "WILDESTAI_AZURE_PUBLISH_PAT"; "OPENVSX_TOKEN"].

(** Work, in the words of the specification: a local file is modified, a
    commit is pushed, an artifact is published. *)
Definition is_work (ev : event) : bool :=
  match ev with
  | WriteFile _ _ | AppendFile _ _ => true
  | Run cmd =>
      String.prefix "git push" cmd || String.prefix "vsce publish" cmd
      || String.prefix "ovsx publish" cmd
  | _ => false
  end.

Definition no_work (ev : event) : bool := negb (is_work ev).

(** What can have happened when the absence of a required variable is
    noticed: output only for the commit references; output, reading and
    [git log] for the API credential; everything short of the publish
    and tag steps for the registry credentials. *)
Definition before_check (name : string) : event -> bool :=
  if String.eqb name "BASE_SHA" || String.eqb name "HEAD_SHA"
  then is_output
  else if String.eqb name "ANTHROPIC_API_KEY" then only_reads
  else nothing_released.

End Runs.

(** ** Semantic versioning, as the specification words it

    The script itself has no notion of a version: these definitions state
    what the specification asks of the decision. *)

Module Semver.

Definition version : Type := nat * nat * nat.

Inductive bump : Type := Patch | Minor | Major.

Definition parse_bump (s : string) : option bump :=
  if String.eqb s "patch" then Some Patch
  else if String.eqb s "minor" then Some Minor
  else if String.eqb s "major" then Some Major
  else None.

(** Patch increments C; minor increments B and zeros C; major increments
    A and zeros B and C. *)
Definition increment (k : bump) (v : version) : version :=
  let '(a, b, c) := v in
  match k with
  | Patch => (a, b, S c)
  | Minor => (a, S b, 0)
  | Major => (S a, 0, 0)
  end.

(** Precedence of versions: by major, then minor, then patch. *)
Definition ltb (v1 v2 : version) : bool :=
  let '(a1, b1, c1) := v1 in
  let '(a2, b2, c2) := v2 in
  ((a1 <? a2) || (a1 =? a2) && ((b1 <? b2) || (b1 =? b2) && (c1 <? c2)))%nat.

Definition digit (c : ascii) : option nat :=
  let n := nat_of_ascii c in
  if ((48 <=? n) && (n <=? 57))%nat then Some (n - 48) else None.

Fixpoint number_from (acc : nat) (s : string) : option nat :=
  match s with
  | "" => Some acc
  | String c s' =>
      match digit c with
      | Some d => number_from (10 * acc + d) s'
      | None => None
      end
  end.

Definition number (s : string) : option nat :=
  match s with
  | "" => None
  | _ => number_from 0 s
  end.

(** [s.split(".")] *)
Fixpoint fields (s : string) : list string :=
  match s with
  | "" => [""]
  | String c s' =>
      if Ascii.eqb c "."%char then "" :: fields s'
      else match fields s' with
           | f :: fs => String c f :: fs
           | [] => [String c ""]
           end
  end.

(** A three-component numeric version string. *)
Definition parse (s : string) : option version :=
  match fields s with
  | [a; b; c] =>
      match number a, number b, number c with
      | Some a, Some b, Some c => Some (a, b, c)
      | _, _, _ => None
      end
  | _ => None
  end.

End Semver.

(** ** Sequences of steps

    Most functions of the script are a fixed sequence of [print] and
    [run_command] calls.  [do_steps] runs such a sequence; the functions are
    shown equal to it, so that what holds of every sequence holds of
    them. *)

Module Cover.

Inductive step : Type :=
| Say (line : string)
| Exec (cmd : string).

(** The sequence, each command with [check=True], up to the first
    exception. *)
Definition do_steps (X : Externals) (steps : list step) : M unit :=
  foldr (fun s rest =>
           match s with
           | Say line => print line;; rest
           | Exec cmd => run_command X cmd true;; rest
           end)
        (mret tt) steps.

(** What a step that went through leaves in the trace. *)
Definition step_events (s : step) : list event :=
  match s with
  | Say line => [Print line]
  | Exec cmd => [Print ("Running: " +:+ cmd); Run cmd]
  end.

Definition steps_events (steps : list step) : list event :=
  concat (step_events <$> steps).

(** The commands among the events, in order. *)
Definition commands (evs : list event) : list string :=
  omap (fun ev => match ev with Run cmd => Some cmd | _ => None end) evs.

(** The number of calls of the API among the events. *)
Definition api_calls (evs : list event) : nat :=
  length (omap (fun ev => match ev with ApiCall t => Some t | _ => None end)
            evs).

Definition package_steps (new_version : string) : list step :=
  [Say ("Updating package.json to version " +:+ new_version);
   Exec ("npm version " +:+ new_version +:+ " --no-git-tag-version")].

Definition commit_steps (new_version : string) : list step :=
  [Say "Committing version changes";
   Exec "git config user.name 'github-actions[bot]'";
   Exec "git config user.email 'github-actions[bot]@users.noreply.github.com'";
   Exec "git add package.json package-lock.json CHANGELOG.md";
   Exec ("git commit -m 'chore: bump version to " +:+ new_version +:+
         " [skip ci]'");
   Exec "git push"].

Definition publish_steps (vsce_token ovsx_token : string) : list step :=
  [Say "Installing vsce and ovsx";
   Exec "npm install -g @vscode/vsce ovsx";
   Say "Building extension";
   Exec "npm run package";
   Say "Publishing to VSCode Marketplace";
   Exec ("vsce publish -p " +:+ vsce_token);
   Say "Publishing to Open VSX";
   Exec ("ovsx publish -p " +:+ ovsx_token)].

Definition tag_steps (new_version : string) : list step :=
  [Say ("Creating git tag v" +:+ new_version);
   Exec ("git tag -a 'v" +:+ new_version +:+ "' -m 'Release version " +:+
         new_version +:+ "'");
   Exec "git push --tags"].

(** The commands of a release that goes through, in order. *)
Definition release_commands
    (base_sha head_sha new_version vsce_token ovsx_token : string)
  : list string :=
  ["git log --format='%s%n%b' " +:+ base_sha +:+ ".." +:+ head_sha;
   "npm version " +:+ new_version +:+ " --no-git-tag-version";
   "git config user.name 'github-actions[bot]'";
   "git config user.email 'github-actions[bot]@users.noreply.github.com'";
   "git add package.json package-lock.json CHANGELOG.md";
   "git commit -m 'chore: bump version to " +:+ new_version +:+ " [skip ci]'";
   "git push";
   "npm install -g @vscode/vsce ovsx";
   "npm run package";
   "vsce publish -p " +:+ vsce_token;
   "ovsx publish -p " +:+ ovsx_token;
   "git tag -a 'v" +:+ new_version +:+ "' -m 'Release version " +:+
   new_version +:+ "'";
   "git push --tags"].

(** From [w] to [w'] the commands [cs] have been run, in this order, and
    the environment is the same. *)
Definition did (cs : list string) (w w' : World) : Prop :=
  environ w' = environ w /\
  exists evs, trace w' = trace w ++ evs /\ commands evs = cs.

(** Policy: no command is run. *)
Definition no_command (ev : event) : bool :=
  match ev with
  | Run _ => false
  | _ => true
  end.

(** Policy: the only file that is overwritten is the changelog, and the
    only command lines are those of git, npm and the two publishing
    tools. *)
Definition footprint (ev : event) : bool :=
  match ev with
  | WriteFile path _ => String.eqb path "CHANGELOG.md"
  | Run cmd =>
      String.prefix "git " cmd || String.prefix "npm " cmd
      || String.prefix "vsce publish " cmd
      || String.prefix "ovsx publish " cmd
  | _ => true
  end.

(** Every exception that [m] raises ends the process with status 1. *)
Definition exits_one {A : Type} (m : M A) : Prop :=
  forall w e, (m w).1 = Raise e -> exit_code e = 1%Z.

Definition first_char (s : string) : option ascii :=
  match s with
  | "" => None
  | String c _ => Some c
  end.

Fixpoint last_char (s : string) : option ascii :=
  match s with
  | "" => None
  | String c "" => Some c
  | String _ s' => last_char s'
  end.

(** Neither the first nor the last character is whitespace. *)
Definition trimmed (s : string) : Prop :=
  (forall c, first_char s = Some c -> is_space c = false) /\
  (forall c, last_char s = Some c -> is_space c = false).

End Cover.

(** ** Concrete worlds *)

Module Examples.
Import Text.

Definition changelog : string :=
  "# Changelog" +:+ NL +:+ NL +:+
  "## [Unreleased]" +:+ NL +:+ NL +:+
  "## [1.2.3] - 2025-01-01" +:+ NL +:+ "- first release" +:+ NL.

Definition entry : string :=
  "## [1.2.4] - 2025-06-01" +:+ NL +:+ NL +:+ "### Fixed" +:+ NL +:+
  "- off-by-one in the parser".

Definition error_text (cmd : string) (rc : Z) : string :=
  "Command '" +:+ cmd +:+ "' returned non-zero exit status " +:+
  pretty rc +:+ ".".

(** Every command succeeds, the API answers, the answer validates. *)
Definition X_ok : Externals :=
  mkExternals
    (fun cmd fs => (mkCompleted 0 ("fix: parser" +:+ NL) "", fs))
    (fun _ => inr "1.2.3")
    (fun _ _ => inr "{...}")
    (fun _ => inr (mkAnalysis "patch" "1.2.4" entry))
    "2025-06-01"
    error_text.

(** The answer validates but names a version below the current one. *)
Definition X_stale : Externals :=
  mkExternals (shell X_ok) (json_version X_ok) (messages_create X_ok)
    (fun _ => inr (mkAnalysis "patch" "1.0.0" entry))
    (today X_ok) error_text.

(** The API is unreachable. *)
Definition X_down : Externals :=
  mkExternals (shell X_ok) (json_version X_ok)
    (fun _ _ => inl ("APIConnectionError", "Connection error."))
    (model_validate_json X_ok) (today X_ok) error_text.

(** [git push] is rejected. *)
Definition X_rejected : Externals :=
  mkExternals
    (fun cmd fs =>
       if String.eqb cmd "git push"
       then (mkCompleted 1 "" "remote: rejected", fs)
       else shell X_ok cmd fs)
    (json_version X_ok) (messages_create X_ok) (model_validate_json X_ok)
    (today X_ok) error_text.

Definition some_files : gmap string string :=
  <["package.json" := "{}"]> (<["CHANGELOG.md" := changelog]> ∅).

Definition world (env : list (string * string)) (fs : gmap string string)
  : World :=
  mkWorld (list_to_map env) fs [].

(** Everything is configured. *)
Definition w_full : World :=
  world [("BASE_SHA", "aaa"); ("HEAD_SHA", "bbb");
         ("ANTHROPIC_API_KEY", "key");
         ("WILDESTAI_AZURE_PUBLISH_PAT", "pat"); ("OPENVSX_TOKEN", "tok");
         ("GITHUB_OUTPUT", "out.txt")]
    some_files.

(** The registry credentials are absent. *)
Definition w_no_tokens : World :=
  world [("BASE_SHA", "aaa"); ("HEAD_SHA", "bbb");
         ("ANTHROPIC_API_KEY", "key")]
    some_files.

(** The changelog has no marker. *)
Definition w_no_marker : World :=
  world [] (<["CHANGELOG.md" := "# Changelog" +:+ NL]> ∅).

(** The marker line is the last line of the changelog. *)
Definition w_marker_last : World :=
  world []
    (<["CHANGELOG.md" := "# Changelog" +:+ NL +:+ "## [Unreleased]" +:+ NL]>
       ∅).

Definition pr : PrDetails := mkPr "fix: parser" "Fixes the parser." "fix".

(** The manifest is missing. *)
Definition w_no_manifest : World :=
  world [("BASE_SHA", "aaa"); ("HEAD_SHA", "bbb")]
    (<["CHANGELOG.md" := changelog]> ∅).

End Examples.

(** * Proofs

    ** Text *)

Module TextFacts.
Import Text.

Lemma app_assoc (a b c : string) : (a +:+ b) +:+ c = a +:+ (b +:+ c).
Proof. induction a as [|x a IH]; simpl; [reflexivity | now rewrite IH]. Qed.

Lemma app_empty_r (a : string) : a +:+ "" = a.
Proof. induction a as [|x a IH]; simpl; [reflexivity | now rewrite IH]. Qed.

Lemma length_app (a b : string) :
  String.length (a +:+ b) = String.length a + String.length b.
Proof. induction a as [|x a IH]; simpl; [reflexivity | now rewrite IH]. Qed.

Lemma slice_to_from (n : nat) (s : string) :
  slice_to n s +:+ slice_from n s = s.
Proof.
  revert s; induction n as [|n IH]; intros [|c s]; simpl; try reflexivity.
  now rewrite IH.
Qed.

Lemma slice_to_app (a b : string) : slice_to (String.length a) (a +:+ b) = a.
Proof. induction a as [|x a IH]; simpl; [now destruct b | now rewrite IH]. Qed.

Lemma slice_from_app (a b : string) :
  slice_from (String.length a) (a +:+ b) = b.
Proof. induction a as [|x a IH]; simpl; [now destruct b | exact IH]. Qed.

Lemma slice_from_0 (s : string) : slice_from 0 s = s.
Proof. now destruct s. Qed.

Lemma slice_to_0 (s : string) : slice_to 0 s = "".
Proof. now destruct s. Qed.

Lemma slice_from_plus (n k : nat) (s : string) :
  slice_from (n + k) s = slice_from k (slice_from n s).
Proof.
  revert s; induction n as [|n IH]; intros s; simpl.
  - now rewrite ?slice_from_0.
  - destruct s as [|c s]; [now destruct k | apply IH].
Qed.

Lemma slice_from_plus_app (a b : string) (k : nat) :
  slice_from (String.length a + k) (a +:+ b) = slice_from k b.
Proof. now rewrite slice_from_plus, slice_from_app. Qed.

Lemma slice_to_length (n : nat) (s : string) :
  n <= String.length s -> String.length (slice_to n s) = n.
Proof.
  revert s; induction n as [|n IH]; intros [|c s] H; simpl in *;
    try reflexivity; try lia.
  rewrite IH; lia.
Qed.

Lemma slice_from_app_le (j : nat) (a b : string) :
  j <= String.length a -> slice_from j (a +:+ b) = slice_from j a +:+ b.
Proof.
  revert a; induction j as [|j IH]; intros a H.
  - now rewrite !slice_from_0.
  - destruct a as [|x a]; simpl in *; [lia | apply IH; lia].
Qed.

Lemma slice_from_length (j : nat) (s : string) :
  String.length (slice_from j s) = String.length s - j.
Proof.
  revert s; induction j as [|j IH]; intros [|c s]; simpl; try lia.
  apply IH.
Qed.

Lemma slice_from_ge (j : nat) (s : string) :
  String.length s <= j -> slice_from j s = "".
Proof.
  revert s; induction j as [|j IH]; intros [|c s] H; simpl in *;
    try reflexivity; try lia.
  apply IH; lia.
Qed.

Lemma prefix_app (m b : string) : String.prefix m (m +:+ b) = true.
Proof.
  induction m as [|x m IH]; simpl; [now destruct b |].
  destruct (ascii_dec x x); [exact IH | contradiction].
Qed.

Lemma prefix_split (m s : string) :
  String.prefix m s = true -> s = m +:+ slice_from (String.length m) s.
Proof.
  revert s; induction m as [|x m IH]; intros s H; simpl.
  - now rewrite ?slice_from_0.
  - destruct s as [|c s]; simpl in H; [discriminate |].
    destruct (ascii_dec x c); [subst | discriminate].
    simpl. f_equal. now apply IH.
Qed.

(** Whether [m] is a prefix only depends on the first [length m]
    characters. *)
Lemma prefix_app_le (m a b : string) :
  String.length m <= String.length a ->
  String.prefix m (a +:+ b) = String.prefix m a.
Proof.
  revert a; induction m as [|x m IH]; intros a H.
  - now destruct a, b.
  - destruct a as [|c a]; simpl in *; [lia |].
    destruct (ascii_dec x c); [apply IH; lia | reflexivity].
Qed.

Lemma prefix_length (m s : string) :
  String.prefix m s = true -> String.length m <= String.length s.
Proof.
  intros H. rewrite (prefix_split _ _ H), length_app. lia.
Qed.

Lemma find_nl_lt (s : string) (k : nat) :
  find_nl s = Some k -> k < String.length s.
Proof.
  revert k; induction s as [|c s IH]; intros k H; simpl in *;
    [discriminate |].
  destruct (Ascii.eqb c nl).
  - injection H as <-. lia.
  - destruct (find_nl s) as [k'|]; simpl in H; [|discriminate].
    injection H as <-. specialize (IH _ eq_refl). lia.
Qed.

(** The first newline of [s] is still the first newline when text is
    appended. *)
Lemma find_nl_app (s t : string) (k : nat) :
  find_nl s = Some k -> find_nl (s +:+ t) = Some k.
Proof.
  revert k; induction s as [|c s IH]; intros k H; simpl in *;
    [discriminate |].
  destruct (Ascii.eqb c nl); [exact H |].
  destruct (find_nl s) as [k'|]; simpl in H; [|discriminate].
  now rewrite (IH _ eq_refl).
Qed.

(** A text without newline, followed by a newline: the first newline is
    at its end. *)
Lemma find_nl_line (a b : string) :
  find_nl a = None -> find_nl (a +:+ String nl b) = Some (String.length a).
Proof.
  induction a as [|c a IH]; intros H; simpl in *.
  - reflexivity.
  - destruct (Ascii.eqb c nl); [discriminate |].
    destruct (find_nl a); [discriminate |].
    now rewrite IH.
Qed.

Lemma find_nl_count (s : string) :
  find_nl s = None <-> count_nl s = 0.
Proof.
  induction s as [|c s IH]; simpl; [tauto |].
  destruct (Ascii.eqb c nl); simpl.
  - split; [discriminate | lia].
  - destruct (find_nl s); simpl; split; intros H; try discriminate;
      try reflexivity; try (apply IH; reflexivity).
    apply IH in H. discriminate.
Qed.

Lemma count_nl_find (s : string) (k : nat) :
  find_nl s = Some k -> count_nl s = S (count_nl (slice_from (S k) s)).
Proof.
  revert k; induction s as [|c s IH]; intros k H; simpl in *;
    [discriminate |].
  destruct (Ascii.eqb c nl).
  - injection H as <-. now rewrite slice_from_0.
  - destruct (find_nl s) as [k'|]; simpl in H; [|discriminate].
    injection H as <-. now rewrite (IH _ eq_refl).
Qed.

(** A suffix has no more newlines than the whole. *)
Lemma count_nl_slice_from (j : nat) (s : string) :
  count_nl (slice_from j s) <= count_nl s.
Proof.
  revert s; induction j as [|j IH]; intros [|c s]; simpl; try lia.
  specialize (IH s). lia.
Qed.

Lemma slice_to_ge (n : nat) (s : string) :
  String.length s <= n -> slice_to n s = s.
Proof.
  revert s; induction n as [|n IH]; intros [|c s] H; simpl in *;
    try reflexivity; try lia.
  rewrite IH; [reflexivity | lia].
Qed.

Lemma slice_from_slice_to (a b : nat) (s : string) :
  slice_from a (slice_to (a + b) s) = slice_to b (slice_from a s).
Proof.
  revert s; induction a as [|a IH]; intros s.
  - now rewrite !slice_from_0.
  - destruct s as [|c s]; simpl; [now destruct b | apply IH].
Qed.

Lemma find_nl_slice_to (n k : nat) (s : string) :
  find_nl s = Some k -> k < n -> find_nl (slice_to n s) = Some k.
Proof.
  revert n k; induction s as [|c s IH]; intros n k H Hk; simpl in H;
    [discriminate |].
  destruct n as [|n]; [lia |]. simpl.
  destruct (Ascii.eqb c nl); [exact H |].
  destruct (find_nl s) as [k'|]; simpl in H; [|discriminate].
  injection H as <-. rewrite (IH n k' eq_refl); [reflexivity | lia].
Qed.

Lemma two_lines_end_le (s : string) (n : nat) :
  two_lines_end s = Some n -> n <= String.length s.
Proof.
  unfold two_lines_end. intros H.
  destruct (find_nl s) as [k1|] eqn:E1; [|discriminate].
  destruct (find_nl (slice_from (S k1) s)) as [k2|] eqn:E2; [|discriminate].
  injection H as <-.
  apply find_nl_lt in E1, E2. rewrite slice_from_length in E2. lia.
Qed.

(** The offset after the second newline only depends on the text up to
    that offset. *)
Lemma two_lines_end_prefix (s t : string) (n : nat) :
  two_lines_end s = Some n -> two_lines_end (slice_to n s +:+ t) = Some n.
Proof.
  intros H. pose proof (two_lines_end_le _ _ H) as Hn. revert H.
  unfold two_lines_end.
  destruct (find_nl s) as [k1|] eqn:E1; [|discriminate].
  destruct (find_nl (slice_from (S k1) s)) as [k2|] eqn:E2; [|discriminate].
  intros [= <-].
  rewrite (find_nl_app _ t k1)
    by (apply find_nl_slice_to; [exact E1 | lia]).
  rewrite slice_from_app_le by (rewrite slice_to_length; lia).
  change (S (k1 + S k2)) with (S k1 + S k2).
  rewrite slice_from_slice_to.
  rewrite (find_nl_app _ t k2)
    by (apply find_nl_slice_to; [exact E2 | lia]).
  reflexivity.
Qed.

Lemma two_lines_end_count (s : string) :
  two_lines_end s = None <-> count_nl s < 2.
Proof.
  unfold two_lines_end.
  destruct (find_nl s) as [k1|] eqn:E1.
  - rewrite (count_nl_find _ _ E1).
    destruct (find_nl (slice_from (S k1) s)) as [k2|] eqn:E2.
    + rewrite (count_nl_find _ _ E2). split; [discriminate | lia].
    + apply find_nl_count in E2. rewrite E2. split; [lia | reflexivity].
  - apply find_nl_count in E1. rewrite E1. split; [lia | reflexivity].
Qed.

(** Two lines, the first after [rest] and the second after [line]. *)
Lemma two_lines_end_lines (rest line post : string) :
  find_nl rest = None -> find_nl line = None ->
  two_lines_end (rest +:+ String nl (line +:+ String nl post)) =
    Some (S (String.length rest) + S (String.length line)).
Proof.
  intros H1 H2. unfold two_lines_end.
  rewrite (find_nl_line _ _ H1).
  replace (S (String.length rest)) with (String.length rest + 1) by lia.
  rewrite slice_from_plus_app.
  change (slice_from 1 (String nl (line +:+ String nl post)))
    with (line +:+ String nl post).
  now rewrite (find_nl_line _ _ H2).
Qed.

Lemma find_some (m s : string) (i : nat) :
  find m s = Some i ->
  occurs_at m s i /\ forall j, j < i -> ~ occurs_at m s j.
Proof.
  unfold occurs_at. revert i; induction s as [|c s IH]; intros i H.
  - cbn [find] in H. destruct (String.prefix m "") eqn:E; [|discriminate].
    injection H as <-. split; [exact E | intros j Hj; lia].
  - cbn [find] in H. destruct (String.prefix m (String c s)) eqn:E.
    + injection H as <-. split; [exact E | intros j Hj; lia].
    + destruct (find m s) as [i'|]; [|discriminate]. injection H as <-.
      destruct (IH i' eq_refl) as [Hocc Hfirst]. split; [exact Hocc |].
      intros [|j] Hj; [rewrite slice_from_0; congruence | apply Hfirst; lia].
Qed.

Lemma find_none (m s : string) :
  find m s = None -> forall j, ~ occurs_at m s j.
Proof.
  unfold occurs_at. induction s as [|c s IH]; intros H j.
  - cbn [find] in H. destruct (String.prefix m "") eqn:E; [discriminate |].
    destruct j; cbn [slice_from]; congruence.
  - cbn [find] in H. destruct (String.prefix m (String c s)) eqn:E;
      [discriminate |].
    destruct (find m s); [discriminate |].
    destruct j as [|j]; [rewrite slice_from_0; congruence |].
    apply IH; reflexivity.
Qed.


End TextFacts.

(** ** The matcher *)

Module RegexFacts.
Import Text TextFacts Regex.

Lemma match_literal (m : string) (r : regex) (s : string) :
  match_here (literal m ++ r)%list s =
    if String.prefix m s
    then (fun n => String.length m + n) <$>
           match_here r (slice_from (String.length m) s)
    else None.
Proof.
  revert s; induction m as [|x m IH]; intros s.
  - cbn [literal list_ascii_of_string fmap list_fmap app String.length].
    rewrite slice_from_0. destruct s; simpl; now destruct (match_here r _).
  - destruct s as [|c s]; [reflexivity |].
    change (match_here (literal (String x m) ++ r)%list (String c s))
      with (if Ascii.eqb x c then S <$> match_here (literal m ++ r)%list s
            else None).
    simpl String.prefix. simpl slice_from.
    destruct (Ascii.eqb_spec x c) as [->|Hne];
      destruct (ascii_dec _ _) as [E|E]; try congruence.
    rewrite IH. destruct (String.prefix m s); [|reflexivity].
    now destruct (match_here r _).
Qed.

Lemma match_lazy_nl (s : string) :
  match_here [LazyAny; Chr nl] s = S <$> find_nl s.
Proof.
  induction s as [|c s IH]; [reflexivity |].
  cbn [match_here] in *. cbn [lazy_any find_nl].
  rewrite (Ascii.eqb_sym c nl).
  destruct (Ascii.eqb nl c); [reflexivity |].
  rewrite IH. now destruct (find_nl s).
Qed.

(** Two lazy runs, each up to a newline, end after the second newline;
    when the text has fewer than two newlines there is no match, however
    far the first run is extended. *)
Lemma match_two_lines (s : string) :
  match_here [LazyAny; Chr nl; LazyAny; Chr nl] s = two_lines_end s.
Proof.
  unfold two_lines_end.
  change (match_here [LazyAny; Chr nl; LazyAny; Chr nl])
    with (lazy_any (match_here [Chr nl; LazyAny; Chr nl])).
  induction s as [|c s IH]; [reflexivity |].
  cbn [lazy_any]. rewrite IH.
  change (match_here [Chr nl; LazyAny; Chr nl] (String c s))
    with (if Ascii.eqb nl c then S <$> match_here [LazyAny; Chr nl] s
          else None).
  rewrite match_lazy_nl. cbn [find_nl]. rewrite (Ascii.eqb_sym c nl).
  destruct (Ascii.eqb nl c).
  - cbn [slice_from]. rewrite ?slice_from_0. now destruct (find_nl s).
  - destruct (find_nl s) as [k1|]; [|reflexivity].
    cbn [fmap option_fmap option_map].
    change (slice_from (S (S k1)) (String c s)) with (slice_from (S k1) s).
    now destruct (find_nl (slice_from (S k1) s)).
Qed.

Lemma search_from_found (r : regex) (i n : nat) :
  forall (s : string) (start : nat),
    (forall j, j < i -> match_here r (slice_from j s) = None) ->
    match_here r (slice_from i s) = Some n ->
    i <= String.length s ->
    search_from r s start = Some (start + i, start + i + n).
Proof.
  induction i as [|i IH]; intros s start Hbefore Hat Hlen.
  - rewrite slice_from_0 in Hat. destruct s; simpl; rewrite Hat;
      do 2 f_equal; lia.
  - destruct s as [|c s]; [simpl in Hlen; lia |].
    pose proof (Hbefore 0 ltac:(lia)) as H0. rewrite slice_from_0 in H0.
    cbn [search_from]. rewrite H0.
    rewrite (IH s (S start)).
    + do 2 f_equal; lia.
    + intros j Hj. apply (Hbefore (S j)). lia.
    + exact Hat.
    + simpl in Hlen. lia.
Qed.

Lemma search_from_none (r : regex) :
  forall (s : string) (start : nat),
    (forall j, match_here r (slice_from j s) = None) ->
    search_from r s start = None.
Proof.
  induction s as [|c s IH]; intros start Hall;
    pose proof (Hall 0) as H0; rewrite slice_from_0 in H0;
    cbn [search_from]; rewrite H0; [reflexivity |].
  apply IH. intros j. apply (Hall (S j)).
Qed.

Lemma search_from_inv (r : regex) :
  forall (s : string) (start a e : nat),
    search_from r s start = Some (a, e) ->
    exists i n,
      a = start + i /\ e = start + i + n /\ i <= String.length s /\
      match_here r (slice_from i s) = Some n /\
      forall j, j < i -> match_here r (slice_from j s) = None.
Proof.
  induction s as [|c s IH]; intros start a e H.
  - simpl in H. destruct (match_here r "") as [n|] eqn:E; [|discriminate].
    injection H as <- <-. exists 0, n.
    split; [lia |]. split; [lia |]. split; [simpl; lia |].
    split; [exact E |]. intros j Hj; lia.
  - cbn [search_from] in H.
    destruct (match_here r (String c s)) as [n|] eqn:E.
    + injection H as <- <-. exists 0, n.
      split; [lia |]. split; [lia |]. split; [simpl; lia |].
      split; [exact E |]. intros j Hj; lia.
    + destruct (IH _ _ _ H) as (i & n & -> & -> & Hi & Hat & Hbefore).
      exists (S i), n.
      split; [lia |]. split; [lia |]. split; [simpl; lia |].
      split; [exact Hat |].
      intros [|j] Hj; [exact E | apply Hbefore; lia].
Qed.

Lemma lazy_any_le (k : string -> option nat) :
  (forall s n, k s = Some n -> n <= String.length s) ->
  forall s n, lazy_any k s = Some n -> n <= String.length s.
Proof.
  intros Hk. induction s as [|c s IH]; intros n H; cbn [lazy_any] in H.
  - destruct (k "") eqn:E; [|discriminate].
    injection H as <-. now apply Hk.
  - destruct (k (String c s)) eqn:E.
    + injection H as <-. now apply Hk.
    + destruct (lazy_any k s) as [n'|]; [|discriminate].
      injection H as <-. specialize (IH _ eq_refl). simpl. lia.
Qed.

(** A match never extends beyond the text. *)
Lemma match_here_le (r : regex) :
  forall s n, match_here r s = Some n -> n <= String.length s.
Proof.
  induction r as [|[c|] r IH]; intros s n H.
  - injection H as <-. lia.
  - destruct s as [|c' s]; [discriminate |]. cbn [match_here] in H.
    destruct (Ascii.eqb c c'); [|discriminate].
    destruct (match_here r s) as [n'|] eqn:E; [|discriminate].
    injection H as <-. specialize (IH _ _ E). simpl. lia.
  - exact (lazy_any_le _ IH s n H).
Qed.

Lemma search_le (r : regex) (s : string) (a e : nat) :
  search r s = Some (a, e) -> a <= e <= String.length s.
Proof.
  intros H. apply search_from_inv in H.
  destruct H as (i & n & -> & -> & Hi & Hat & _).
  apply match_here_le in Hat. rewrite slice_from_length in Hat. lia.
Qed.


End RegexFacts.

(** ** Where the pattern matches

    The search for [unreleased_re] succeeds exactly at the first occurrence
    of the marker, provided two newlines follow it, and ends just after the
    second of them. *)

Module Unreleased.
Import Text TextFacts Splice.

Lemma match_unreleased (s : string) :
  Regex.match_here unreleased_re s =
    if String.prefix unreleased_marker s
    then (fun n => marker_len + n) <$>
           two_lines_end (slice_from marker_len s)
    else None.
Proof.
  unfold unreleased_re.
  now rewrite RegexFacts.match_literal, RegexFacts.match_two_lines.
Qed.

Lemma match_none_no_marker (D : string) (j : nat) :
  ~ occurs_at unreleased_marker D j ->
  Regex.match_here unreleased_re (slice_from j D) = None.
Proof.
  intros H. rewrite match_unreleased. unfold occurs_at in H.
  now destruct (String.prefix _ _).
Qed.

Lemma match_some_count (s : string) (n : nat) :
  Regex.match_here unreleased_re s = Some n ->
  String.prefix unreleased_marker s = true /\
  2 <= count_nl (slice_from marker_len s).
Proof.
  rewrite match_unreleased. destruct (String.prefix _ _); [|discriminate].
  intros H. split; [reflexivity |].
  destruct (two_lines_end (slice_from marker_len s)) eqn:E; [|discriminate].
  destruct (Nat.lt_ge_cases (count_nl (slice_from marker_len s)) 2)
    as [Hlt|Hge]; [|exact Hge].
  apply two_lines_end_count in Hlt. congruence.
Qed.

Lemma occurs_at_le (D : string) (j : nat) :
  occurs_at unreleased_marker D j -> j + marker_len <= String.length D.
Proof.
  unfold occurs_at. intros H. apply prefix_length in H.
  rewrite slice_from_length in H. fold marker_len in H.
  assert (0 < marker_len) by (unfold marker_len; simpl; lia). lia.
Qed.

Theorem search_found (D : string) (i n : nat) :
  occurs_at unreleased_marker D i ->
  (forall j, j < i -> ~ occurs_at unreleased_marker D j) ->
  two_lines_end (slice_from (i + marker_len) D) = Some n ->
  Regex.search unreleased_re D = Some (i, i + (marker_len + n)).
Proof.
  intros Hocc Hfirst Hlines.
  apply (RegexFacts.search_from_found unreleased_re i (marker_len + n) D 0).
  - intros j Hj. apply match_none_no_marker. now apply Hfirst.
  - rewrite match_unreleased. unfold occurs_at in Hocc. rewrite Hocc.
    rewrite <- slice_from_plus, Hlines. reflexivity.
  - apply occurs_at_le in Hocc. lia.
Qed.

Theorem search_none (D : string) :
  (forall j, occurs_at unreleased_marker D j ->
             count_nl (slice_from (j + marker_len) D) < 2) ->
  Regex.search unreleased_re D = None.
Proof.
  intros H. apply RegexFacts.search_from_none. intros j.
  destruct (Regex.match_here unreleased_re (slice_from j D)) as [n|] eqn:E;
    [|reflexivity].
  apply match_some_count in E. destruct E as [Hocc Hcount].
  specialize (H j Hocc). rewrite slice_from_plus in H. lia.
Qed.

Theorem search_inv (D : string) (i p : nat) :
  Regex.search unreleased_re D = Some (i, p) ->
  occurs_at unreleased_marker D i /\
  (forall j, j < i -> ~ occurs_at unreleased_marker D j) /\
  exists n, two_lines_end (slice_from (i + marker_len) D) = Some n /\
            p = i + (marker_len + n).
Proof.
  intros H. apply RegexFacts.search_from_inv in H.
  destruct H as (i' & n & -> & -> & Hi & Hat & Hbefore). simpl.
  pose proof (match_some_count _ _ Hat) as [Hocc Hcount].
  split; [exact Hocc |]. split.
  - intros j Hj Hoccj. specialize (Hbefore j Hj).
    rewrite match_unreleased in Hbefore. unfold occurs_at in Hoccj.
    rewrite Hoccj in Hbefore.
    destruct (two_lines_end (slice_from marker_len (slice_from j D)))
      eqn:E; [discriminate |].
    apply two_lines_end_count in E.
    rewrite <- !slice_from_plus in *.
    replace (i' + marker_len) with ((j + marker_len) + (i' - j))
      in Hcount by lia.
    rewrite slice_from_plus in Hcount.
    pose proof (count_nl_slice_from (i' - j)
                  (slice_from (j + marker_len) D)). lia.
  - rewrite match_unreleased, Hocc in Hat.
    rewrite <- slice_from_plus in Hat.
    destruct (two_lines_end (slice_from (i' + marker_len) D)) as [m|];
      [|discriminate].
    injection Hat as <-. exists m. split; [reflexivity | lia].
Qed.

(** Text put after the end of the match does not move the match. *)
Theorem search_stable (D T : string) (i p : nat) :
  Regex.search unreleased_re D = Some (i, p) ->
  Regex.search unreleased_re (slice_to p D +:+ T) = Some (i, p).
Proof.
  intros H. pose proof (RegexFacts.search_le _ _ _ _ H) as Hle.
  apply search_inv in H. destruct H as (Hocc & Hfirst & n & Hlines & ->).
  pose proof (two_lines_end_le _ _ Hlines) as Hn.
  rewrite slice_from_length in Hn.
  set (p := i + (marker_len + n)) in *.
  assert (Hlen : String.length (slice_to p D) = p)
    by (apply slice_to_length; lia).
  assert (Hpre : forall j, j + marker_len <= p ->
            String.prefix unreleased_marker (slice_from j (slice_to p D +:+ T))
            = String.prefix unreleased_marker (slice_from j D)).
  { intros j Hj.
    rewrite <- (slice_to_from p D) at 2.
    rewrite !slice_from_app_le by lia.
    rewrite !prefix_app_le; [reflexivity | |];
      rewrite slice_from_length; fold marker_len; lia. }
  apply search_found.
  - unfold occurs_at. rewrite Hpre by (unfold p; lia). exact Hocc.
  - intros j Hj. unfold occurs_at. rewrite Hpre by (unfold p; lia).
    now apply Hfirst.
  - rewrite slice_from_app_le by lia.
    replace p with ((i + marker_len) + n) by (unfold p; lia).
    rewrite slice_from_slice_to.
    now apply two_lines_end_prefix.
Qed.

End Unreleased.

(** ** The changelog splice *)

Module Changelog.
Import Text TextFacts Splice.

Lemma update_found (w : World) (entry D : string) (i p : nat) :
  files w !! "CHANGELOG.md" = Some D ->
  Regex.search unreleased_re D = Some (i, p) ->
  update_changelog entry w =
    (Ok tt, written (slice_to p D +:+ block entry +:+ slice_from p D) w).
Proof.
  intros Hfile Hsearch.
  unfold update_changelog, mbind, M_bind, print, read_file. simpl.
  rewrite Hfile, Hsearch. unfold write_file, written, block. simpl.
  now rewrite !app_assoc.
Qed.

Lemma update_not_found (w : World) (entry D : string) :
  files w !! "CHANGELOG.md" = Some D ->
  Regex.search unreleased_re D = None ->
  update_changelog entry w = (Raise (SystemExit 1), refused w).
Proof.
  intros Hfile Hsearch.
  unfold update_changelog, mbind, M_bind, print, read_file. simpl.
  now rewrite Hfile, Hsearch.
Qed.

Lemma update_inv (w w' : World) (entry D : string) :
  files w !! "CHANGELOG.md" = Some D ->
  update_changelog entry w = (Ok tt, w') ->
  exists i p, Regex.search unreleased_re D = Some (i, p) /\
              w' = written (slice_to p D +:+ block entry +:+ slice_from p D) w.
Proof.
  intros Hfile Hrun.
  destruct (Regex.search unreleased_re D) as [[i p]|] eqn:E.
  - rewrite (update_found _ _ _ _ _ Hfile E) in Hrun.
    injection Hrun as <-. now exists i, p.
  - rewrite (update_not_found _ _ _ Hfile E) in Hrun. discriminate.
Qed.

(** Cutting the inserted block out again. *)
Lemma remove_block (D B : string) (p : nat) :
  p <= String.length D ->
  remove_span p (String.length B) (slice_to p D +:+ B +:+ slice_from p D) = D
  /\ slice_to (String.length B)
       (slice_from p (slice_to p D +:+ B +:+ slice_from p D)) = B.
Proof.
  intros Hp. unfold remove_span.
  pose proof (slice_to_length p D Hp) as Hlen.
  pose proof (slice_to_from p D) as HD.
  set (A := slice_to p D) in *. set (R := slice_from p D) in *.
  clearbody A R. subst p.
  rewrite slice_to_app, slice_from_plus_app, !slice_from_app, slice_to_app.
  split; [exact HD | reflexivity].
Qed.

Lemma trace_written (text : string) (w : World) :
  trace (written text w) =
    trace w ++ [Print "Updating CHANGELOG.md"; ReadFile "CHANGELOG.md";
                WriteFile "CHANGELOG.md" text].
Proof.
  unfold written, emit, set_files. simpl.
  now rewrite <- !List.app_assoc.
Qed.

Lemma trace_refused (w : World) :
  trace (refused w) =
    trace w ++
    [Print "Updating CHANGELOG.md"; ReadFile "CHANGELOG.md";
     Print "Error: Could not find [Unreleased] section in CHANGELOG.md"].
Proof.
  unfold refused, emit. simpl. now rewrite <- !List.app_assoc.
Qed.

(** A changelog whose first marker is followed by the rest of its line
    and one more line: the match ends where that line ends. *)
Lemma shape (pre rest line post : string) :
  find unreleased_marker (upto_line pre rest line +:+ post)
  = Some (String.length pre) ->
  find_nl rest = None -> find_nl line = None ->
  Regex.search unreleased_re (upto_line pre rest line +:+ post) =
    Some (String.length pre, String.length (upto_line pre rest line)).
Proof.
  intros Hfind Hrest Hline.
  apply find_some in Hfind. destruct Hfind as [Hocc Hfirst].
  replace (String.length (upto_line pre rest line))
    with (String.length pre +
          (marker_len + (S (String.length rest) + S (String.length line)))).
  - apply Unreleased.search_found; [exact Hocc | exact Hfirst |].
    unfold upto_line, marker_len. rewrite !app_assoc.
    rewrite slice_from_plus_app, slice_from_app.
    now apply two_lines_end_lines.
  - unfold upto_line, marker_len. rewrite !length_app. simpl. lia.
Qed.

(** A changelog whose first marker has fewer than two newlines after
    it: no match. *)
Lemma short (pre rest : string) :
  find unreleased_marker (pre +:+ unreleased_marker +:+ rest)
  = Some (String.length pre) ->
  count_nl rest < 2 ->
  Regex.search unreleased_re (pre +:+ unreleased_marker +:+ rest) = None.
Proof.
  intros Hfind Hcount. apply find_some in Hfind.
  destruct Hfind as [_ Hfirst].
  apply Unreleased.search_none. intros j Hocc.
  destruct (Nat.lt_ge_cases j (String.length pre)) as [Hlt|Hge];
    [now destruct (Hfirst j Hlt) |].
  replace (j + marker_len)
    with (String.length pre + (marker_len + (j - String.length pre)))
    by lia.
  unfold marker_len.
  rewrite slice_from_plus_app, slice_from_plus_app.
  pose proof (count_nl_slice_from (j - String.length pre) rest). lia.
Qed.

End Changelog.

(** ** Runs: composition rules *)

Module RunsFacts.
Import Runs.

Lemma bind_run {A B : Type} (m : M A) (f : A -> M B) (w : World) :
  (m ≫= f) w =
    match m w with
    | (Ok a, w') => f a w'
    | (Raise e, w') => (Raise e, w')
    end.
Proof. reflexivity. Qed.

Lemma bind_ok {A B : Type} (m : M A) (f : A -> M B) (w w' : World) (b : B) :
  (m ≫= f) w = (Ok b, w') ->
  exists a w1, m w = (Ok a, w1) /\ f a w1 = (Ok b, w').
Proof.
  rewrite bind_run. destruct (m w) as [[a|e] w1]; [|discriminate].
  intros H. now exists a, w1.
Qed.

Lemma bind_raise {A B : Type} (m : M A) (f : A -> M B) (w w' : World)
    (e : exn) :
  m w = (Raise e, w') -> (m ≫= f) w = (Raise e, w').
Proof. intros H. now rewrite bind_run, H. Qed.

Section Rules.
Context {A B : Type} (P : event -> bool).

Lemma run_spec_bind (m : M A) (f : A -> M B) (w : World)
    (Q : result B -> Prop) :
  sound P m ->
  (forall a w1, m w = (Ok a, w1) -> environ w1 = environ w ->
                run_spec P Q (f a) w1) ->
  (forall e w1, m w = (Raise e, w1) -> exit_code e <> 0%Z ->
                Q (Raise e)) ->
  run_spec P Q (m ≫= f) w.
Proof.
  intros Hm Hf Hq. destruct (Hm w) as (Henv & (evs & Htr & Hev) & Hr).
  unfold run_spec. rewrite bind_run.
  destruct (m w) as [[a|e] w1] eqn:E; simpl in *.
  - destruct (Hf a w1 eq_refl Henv) as (Henv2 & (evs2 & Htr2 & Hev2) & H).
    split; [congruence |]. split; [|exact H].
    exists (evs ++ evs2). rewrite Htr2, Htr, List.app_assoc.
    split; [reflexivity | now apply Forall_app].
  - split; [exact Henv |]. split; [now exists evs |].
    apply (Hq e w1 eq_refl). now apply Hr.
Qed.

Lemma sound_bind (m : M A) (f : A -> M B) :
  sound P m -> (forall a, sound P (f a)) -> sound P (m ≫= f).
Proof.
  intros Hm Hf w. apply run_spec_bind; [exact Hm | |].
  - intros a w1 _ _. apply Hf.
  - intros e w1 _ He e' [= <-]. exact He.
Qed.

Lemma aborts_bind (m : M A) (f : A -> M B) (w : World) :
  sound P m ->
  (forall a w1, m w = (Ok a, w1) -> environ w1 = environ w ->
                aborts P (f a) w1) ->
  aborts P (m ≫= f) w.
Proof.
  intros Hm Hf. apply run_spec_bind; [exact Hm | exact Hf |].
  intros e w1 _ He. now exists e.
Qed.

Lemma sound_ret (a : A) : sound P (mret a).
Proof.
  intros w. split; [reflexivity |]. split; [|intros e; discriminate].
  exists []. now rewrite List.app_nil_r.
Qed.

Lemma sound_emit (ev : event) (r : result A) (g : World -> World) :
  P ev = true ->
  (forall w, environ (g w) = environ w /\ trace (g w) = trace w) ->
  fails_loudly r ->
  sound P (fun w => (r, emit ev (g w))).
Proof.
  intros HP Hg Hr w. destruct (Hg w) as [He Ht].
  split; [exact He |]. split; [|exact Hr].
  exists [ev]. cbn [snd emit trace]. rewrite Ht.
  split; [reflexivity | now constructor].
Qed.

Lemma sound_raise (e : exn) : exit_code e <> 0%Z -> sound P (@raise A e).
Proof.
  intros He w. split; [reflexivity |]. split.
  - exists []. now rewrite List.app_nil_r.
  - intros e' [= <-]. exact He.
Qed.

Lemma sound_sys_exit : sound P (@sys_exit A 1).
Proof. apply sound_raise. discriminate. Qed.

Lemma sound_try (body : M A) (handler : exn -> M A) :
  sound P body -> (forall e, sound P (handler e)) ->
  sound P (try_except body handler).
Proof.
  intros Hb Hh w. destruct (Hb w) as (Henv & (evs & Htr & Hev) & Hr).
  unfold run_spec, try_except.
  destruct (body w) as [[a|e] w1] eqn:E; simpl in *.
  - split; [exact Henv |]. split; [now exists evs | intros e; discriminate].
  - destruct (is_Exception e).
    + destruct (Hh e w1) as (Henv2 & (evs2 & Htr2 & Hev2) & Hr2).
      split; [congruence |]. split; [|exact Hr2].
      exists (evs ++ evs2). rewrite Htr2, Htr, List.app_assoc.
      split; [reflexivity | now apply Forall_app].
    + split; [exact Henv |]. split; [now exists evs | exact Hr].
Qed.

Lemma sound_weaken (P' : event -> bool) (m : M A) :
  (forall ev, P' ev = true -> P ev = true) -> sound P' m -> sound P m.
Proof.
  intros Hw Hm w. destruct (Hm w) as (Henv & (evs & Htr & Hev) & Hr).
  split; [exact Henv |]. split; [|exact Hr].
  exists evs. split; [exact Htr |].
  eapply Forall_impl; [exact Hev | exact Hw].
Qed.

End Rules.

Lemma reach_refl (P : event -> bool) (w : World) : reach P w w.
Proof.
  split; [reflexivity |]. exists []. now rewrite List.app_nil_r.
Qed.

Lemma reach_step {A : Type} (P : event -> bool) (m : M A) (w w1 w2 : World)
    (r : result A) :
  reach P w w1 -> m w1 = (r, w2) -> sound P m -> reach P w w2.
Proof.
  intros (Henv & evs & Htr & Hev) Hrun Hm.
  destruct (Hm w1) as (Henv2 & (evs2 & Htr2 & Hev2) & _).
  rewrite Hrun in Henv2, Htr2. simpl in *.
  split; [congruence |]. exists (evs ++ evs2).
  rewrite Htr2, Htr, List.app_assoc.
  split; [reflexivity | now apply Forall_app].
Qed.

End RunsFacts.

(** ** The steps of the script keep to a policy *)

Module ScriptFacts.
Import Runs RunsFacts.

Section Policy.
Context (X : Externals) (P : event -> bool).

Lemma sound_print (line : string) :
  P (Print line) = true -> sound P (print line).
Proof.
  intros HP. apply (sound_emit P (Print line) (Ok tt) (fun w => w) HP).
  - now intros w.
  - intros e; discriminate.
Qed.

Lemma sound_print_exc (e : exn) :
  P (Traceback (exn_class e) (exn_str X e)) = true ->
  sound P (print_exc X e).
Proof.
  intros HP.
  apply (sound_emit P _ (Ok tt) (fun w => w) HP).
  - now intros w.
  - intros e'; discriminate.
Qed.

Lemma sound_getenv (name : string) : sound P (getenv name).
Proof. intros w. apply (sound_ret P (environ w !! name) w). Qed.

Lemma sound_getenv_default (name dflt : string) :
  sound P (getenv_default name dflt).
Proof. intros w. apply (sound_ret P (default dflt (environ w !! name)) w). Qed.

Lemma sound_read_file (path : string) :
  P (ReadFile path) = true -> sound P (read_file path).
Proof.
  intros HP w. unfold run_spec, read_file.
  destruct (files w !! path) as [text|].
  - apply (sound_emit P (ReadFile path) (Ok text) (fun w => w) HP).
    + now intros w'.
    + intros e; discriminate.
  - refine (sound_raise P (Exception _ _) _ w). discriminate.
Qed.

Lemma sound_write_file (path text : string) :
  P (WriteFile path text) = true -> sound P (write_file path text).
Proof.
  intros HP.
  apply (sound_emit P _ (Ok tt)
           (fun w => set_files (<[path := text]> (files w)) w) HP).
  - now intros w.
  - intros e; discriminate.
Qed.

Lemma sound_append_file (path text : string) :
  P (AppendFile path text) = true -> sound P (append_file path text).
Proof.
  intros HP.
  apply (sound_emit P _ (Ok tt)
           (fun w => set_files
                       (<[path := default "" (files w !! path) +:+ text]>
                          (files w)) w) HP).
  - now intros w.
  - intros e; discriminate.
Qed.

Lemma sound_lift {A : Type} (r : (string * string) + A) :
  sound P (lift r).
Proof.
  destruct r as [[cls msg]|a]; [|apply sound_ret].
  apply sound_raise. discriminate.
Qed.

Lemma sound_create_message (api_key text : string) :
  P (ApiCall text) = true -> sound P (create_message X api_key text).
Proof.
  intros HP w. unfold create_message.
  destruct (messages_create X api_key text) as [[cls msg]|content].
  - apply (sound_emit P _ (Raise (Exception cls msg)) (fun w => w) HP).
    + now intros w'.
    + intros e [= <-]. discriminate.
  - apply (sound_emit P _ (Ok content) (fun w => w) HP).
    + now intros w'.
    + intros e; discriminate.
Qed.

Lemma sound_subprocess_run (cmd : string) (check : bool) :
  P (Run cmd) = true -> sound P (subprocess_run X cmd check).
Proof.
  intros HP w. unfold run_spec, subprocess_run.
  destruct (shell X cmd (files w)) as [p fs] eqn:E.
  destruct (check && negb (returncode p =? 0)%Z).
  - refine (sound_emit P _ (Raise _) (fun w => set_files fs w) HP _ _ w).
    + now intros w'.
    + intros e [= <-]. discriminate.
  - refine (sound_emit P _ (Ok p) (fun w => set_files fs w) HP _ _ w).
    + now intros w'.
    + intros e; discriminate.
Qed.

Context (Hout : forall ev, is_output ev = true -> P ev = true).

Lemma sound_run_command (cmd : string) (check : bool) :
  P (Run cmd) = true -> sound P (run_command X cmd check).
Proof.
  intros HP. unfold run_command.
  apply sound_bind; [now apply sound_print, Hout | intros _].
  apply sound_bind; [now apply sound_subprocess_run | intros p].
  destruct (negb (returncode p =? 0)%Z && check).
  - apply sound_bind; [now apply sound_print, Hout | intros _].
    apply sound_sys_exit.
  - apply sound_ret.
Qed.

End Policy.

End ScriptFacts.

(** ** The steps against the policies *)

Module Steps.
Import Runs RunsFacts ScriptFacts.

Ltac allows_output :=
  let ev := fresh "ev" in
  let H := fresh "H" in
  intros ev H; destruct ev; first [discriminate H | reflexivity].

Ltac sound_unfold :=
  unfold get_current_version, get_pr_details, analyze_version_bump,
    update_package_json, update_changelog, commit_and_push,
    publish_extension, create_git_tag.

(** Splits [sound P m], for a concrete policy [P], along the structure
    of [m]; the leaves are evaluations of the policy. *)
Ltac sound_steps :=
  repeat (cbv beta; first
    [ apply sound_ret
    | apply sound_sys_exit
    | apply sound_getenv
    | apply sound_getenv_default
    | apply sound_lift
    | apply sound_print; reflexivity
    | apply sound_print_exc; reflexivity
    | apply sound_read_file; reflexivity
    | apply sound_write_file; reflexivity
    | apply sound_append_file; reflexivity
    | apply sound_create_message; reflexivity
    | apply sound_run_command; [allows_output | reflexivity]
    | apply sound_try; [|intros ?]
    | apply sound_bind; [|intros ?]
    | match goal with
      | |- sound _ (if ?c then _ else _) => destruct c
      | |- sound _ (match ?x with _ => _ end) => destruct x
      end ]).

Ltac sound_auto := sound_unfold; sound_steps.

(** One step of a run that returned: [H] says that a sequence returned,
    [R] that its first world is reached under a policy; afterwards [H] is
    about the rest of the sequence and [R] about the world after the first
    step. *)
Ltac advance H R :=
  let a := fresh "a" in
  let w1 := fresh "w" in
  let Hs := fresh "Hs" in
  apply bind_ok in H; destruct H as (a & w1 & Hs & H);
  apply (reach_step _ _ _ _ _ _ R) in Hs; [|sound_auto];
  clear R; rename Hs into R.

Section WithExternals.
Context (X : Externals).

Lemma aborts_bind_l {A B : Type} (P : event -> bool) (m : M A)
    (f : A -> M B) (w : World) :
  aborts P m w -> aborts P (m ≫= f) w.
Proof.
  intros (Henv & Hev & e & Hr & He). unfold aborts, run_spec.
  rewrite bind_run. destruct (m w) as [[a|e'] w1]; simpl in *;
    [discriminate |].
  injection Hr as ->.
  split; [exact Henv |]. split; [exact Hev |]. now exists e.
Qed.

Lemma aborts_exit {A : Type} (P : event -> bool) (line : string)
    (w : World) :
  P (Print line) = true -> aborts P (print line;; @sys_exit A 1) w.
Proof.
  intros HP. split; [reflexivity |]. split.
  - exists [Print line]. split; [reflexivity | now constructor].
  - exists (SystemExit 1). split; [reflexivity | discriminate].
Qed.

(** An aborted [main] is a process that ends with a non-zero status;
    the traceback of the interpreter is output. *)
Lemma script_aborts (P : event -> bool) (w : World) :
  (forall ev, is_output ev = true -> P ev = true) ->
  aborts P (main X) w ->
  (script X w).1 <> 0%Z /\
  environ (script X w).2 = environ w /\
  exists evs, trace (script X w).2 = trace w ++ evs /\
              Forall (fun ev => P ev = true) evs.
Proof.
  intros Hout (Henv & (evs & Htr & Hev) & e & Hr & He). unfold script.
  destruct (main X w) as [[[]|e'] w1]; simpl in *; [discriminate |].
  injection Hr as ->.
  destruct e as [code|cmd rc out err|cls msg]; simpl.
  - split; [exact He |]. split; [exact Henv |]. now exists evs.
  - split; [discriminate |]. split; [exact Henv |].
    eexists (evs ++ [_]). rewrite Htr, List.app_assoc.
    split; [reflexivity |]. apply Forall_app. split; [exact Hev |].
    constructor; [now apply Hout | constructor].
  - split; [discriminate |]. split; [exact Henv |].
    eexists (evs ++ [_]). rewrite Htr, List.app_assoc.
    split; [reflexivity |]. apply Forall_app. split; [exact Hev |].
    constructor; [now apply Hout | constructor].
Qed.

(** The decision step, case by case. *)
Lemma analyze_run (current_version : string) (pr_details : PrDetails)
    (w : World) :
  let api_key := environ w !! "ANTHROPIC_API_KEY" in
  let text := prompt X current_version pr_details in
  analyze_version_bump X current_version pr_details w =
    if not_ api_key
    then (Raise (SystemExit 1),
          emit (Print "Error: ANTHROPIC_API_KEY environment variable not set")
            w)
    else
      match messages_create X (fstr api_key) text with
      | inl (cls, msg) =>
          (Raise (SystemExit 1),
           emit (Traceback cls msg)
             (emit (Print ("Error calling Claude API: " +:+ msg))
                (emit (ApiCall text) w)))
      | inr content =>
          let w1 :=
            emit (Print ("Claude response: " +:+ content))
              (emit (ApiCall text) w) in
          match model_validate_json X content with
          | inl (cls, msg) =>
              (Raise (SystemExit 1),
               emit (Traceback cls msg)
                 (emit (Print ("Error calling Claude API: " +:+ msg)) w1))
          | inr r =>
              (Ok (version_bump r, new_version r, changelog_entry r), w1)
          end
      end.
Proof.
  intros api_key text.
  unfold analyze_version_bump, getenv. rewrite bind_run. fold api_key.
  destruct (not_ api_key); [reflexivity |].
  unfold try_except, create_message. rewrite bind_run. fold text.
  destruct (messages_create X (fstr api_key) text) as [[cls msg]|content];
    [reflexivity |].
  cbn zeta. rewrite !bind_run. unfold print at 1. cbv beta iota.
  rewrite !bind_run.
  destruct (model_validate_json X content) as [[cls msg]|r];
    reflexivity.
Qed.

(** A decision that returns is the validated answer of the API. *)
Lemma analyze_ok (cur : string) (pr : PrDetails) (w w' : World)
    (kind v entry : string) :
  analyze_version_bump X cur pr w = (Ok (kind, v, entry), w') ->
  exists api_key content r,
    environ w !! "ANTHROPIC_API_KEY" = Some api_key /\
    messages_create X api_key (prompt X cur pr) = inr content /\
    model_validate_json X content = inr r /\
    kind = version_bump r /\ v = new_version r /\
    entry = changelog_entry r /\
    w' = emit (Print ("Claude response: " +:+ content))
           (emit (ApiCall (prompt X cur pr)) w).
Proof.
  intros Hrun. rewrite analyze_run in Hrun. cbv zeta in Hrun.
  destruct (environ w !! "ANTHROPIC_API_KEY") as [api_key|];
    [|discriminate].
  change (fstr (Some api_key)) with api_key in Hrun.
  destruct (not_ (Some api_key)); [discriminate |].
  destruct (messages_create X api_key _) as [[cls msg]|content] eqn:Ecall;
    [discriminate |].
  destruct (model_validate_json X content) as [[cls msg]|r] eqn:E;
    [discriminate |].
  injection Hrun as <- <- <- <-. now exists api_key, content, r.
Qed.

Lemma aborts_of_run {A : Type} (P : event -> bool) (m : M A)
    (w w' : World) (e : exn) (evs : list event) :
  m w = (Raise e, w') -> exit_code e <> 0%Z ->
  environ w' = environ w -> trace w' = trace w ++ evs ->
  Forall (fun ev => P ev = true) evs ->
  aborts P m w.
Proof.
  intros Hrun He Henv Htr Hev. unfold aborts, run_spec. rewrite Hrun.
  split; [exact Henv |]. split; [now exists evs | now exists e].
Qed.

Lemma analyze_aborts_no_key (P : event -> bool) (cur : string)
    (pr : PrDetails) (w : World) :
  (forall ev, is_output ev = true -> P ev = true) ->
  not_ (environ w !! "ANTHROPIC_API_KEY") = true ->
  aborts P (analyze_version_bump X cur pr) w.
Proof.
  intros Hout Hkey. pose proof (analyze_run cur pr w) as Hrun.
  cbv zeta in Hrun. rewrite Hkey in Hrun.
  eapply aborts_of_run; [exact Hrun | discriminate | reflexivity
                        | reflexivity |].
  constructor; [now apply Hout | constructor].
Qed.

Lemma analyze_aborts_fails (cur : string) (pr : PrDetails) (w : World) :
  decision_fails X ->
  aborts reads_and_asks (analyze_version_bump X cur pr) w.
Proof.
  intros Hfail. pose proof (analyze_run cur pr w) as Hrun.
  cbv zeta in Hrun.
  destruct (not_ (environ w !! "ANTHROPIC_API_KEY")).
  { eapply aborts_of_run; [exact Hrun | discriminate | reflexivity
                          | reflexivity |].
    now repeat constructor. }
  specialize (Hfail (fstr (environ w !! "ANTHROPIC_API_KEY"))
                (prompt X cur pr)).
  destruct (messages_create X _ _) as [[cls msg]|content].
  { eapply aborts_of_run; [exact Hrun | discriminate | reflexivity | |].
    - cbn [emit trace]. rewrite <- !List.app_assoc. reflexivity.
    - now repeat constructor. }
  destruct (model_validate_json X content) as [[cls msg]|r];
    [|contradiction].
  eapply aborts_of_run; [exact Hrun | discriminate | reflexivity | |].
  - cbn [emit trace]. rewrite <- !List.app_assoc. reflexivity.
  - now repeat constructor.
Qed.

Lemma publish_no_token (w : World) :
  not_ (environ w !! "WILDESTAI_AZURE_PUBLISH_PAT")
  || not_ (environ w !! "OPENVSX_TOKEN") = true ->
  publish_extension X w =
    (Raise (SystemExit 1),
     emit (Print "Error: WILDESTAI_AZURE_PUBLISH_PAT or OPENVSX_TOKEN not set")
       w).
Proof.
  intros H. unfold publish_extension, getenv. rewrite !bind_run.
  cbv beta iota. now rewrite H.
Qed.

Lemma main_no_sha (w : World) :
  not_ (environ w !! "BASE_SHA") || not_ (environ w !! "HEAD_SHA")
  = true ->
  main X w =
    (Raise (SystemExit 1),
     emit (Print "Error: BASE_SHA or HEAD_SHA not set")
       (emit (Print "=== Starting automated release process ===") w)).
Proof.
  intros H. unfold main, getenv, print. rewrite !bind_run.
  cbv beta iota. cbn [environ emit]. now rewrite H.
Qed.

(** One step of [main] that keeps to the policy; what remains is the
    rest of [main] in the world after the step. *)
Ltac aborts_step :=
  apply aborts_bind; [sound_auto | intros ? ? _ ?].

(** No step changes the environment. *)
Ltac env_back :=
  repeat match goal with
         | H : environ ?a = environ _ |- context [environ ?a] => rewrite H
         end.

Lemma main_aborts_no_key (w : World) :
  not_ (environ w !! "ANTHROPIC_API_KEY") = true ->
  aborts only_reads (main X) w.
Proof.
  intros Hkey. unfold main. do 3 aborts_step.
  match goal with |- aborts _ (if ?c then _ else _) _ => destruct c end.
  { now apply aborts_exit. }
  do 4 aborts_step.
  apply aborts_bind_l, analyze_aborts_no_key; [allows_output |].
  env_back. exact Hkey.
Qed.

Lemma main_aborts_no_token (w : World) :
  not_ (environ w !! "WILDESTAI_AZURE_PUBLISH_PAT")
  || not_ (environ w !! "OPENVSX_TOKEN") = true ->
  aborts nothing_released (main X) w.
Proof.
  intros Htok. unfold main. do 3 aborts_step.
  match goal with |- aborts _ (if ?c then _ else _) _ => destruct c end.
  { now apply aborts_exit. }
  do 5 aborts_step.
  match goal with
  | |- aborts _ (match ?x with _ => _ end) _ => destruct x as [[bump v] entry]
  end.
  do 6 aborts_step.
  apply aborts_bind_l.
  eapply aborts_of_run;
    [apply publish_no_token | discriminate | reflexivity | reflexivity |].
  - env_back. exact Htok.
  - now repeat constructor.
Qed.

Lemma main_aborts_fails (w : World) :
  decision_fails X -> aborts reads_and_asks (main X) w.
Proof.
  intros Hfail. unfold main. do 3 aborts_step.
  match goal with |- aborts _ (if ?c then _ else _) _ => destruct c end.
  { now apply aborts_exit. }
  do 4 aborts_step.
  now apply aborts_bind_l, analyze_aborts_fails.
Qed.

End WithExternals.

End Steps.

(** ** Running a command *)

Module Commands.
Import Runs RunsFacts.

Section WithExternals.
Context (X : Externals).

Lemma trace_ran (cmd : string) (w : World) :
  trace (ran X cmd w) = trace w ++ [Print ("Running: " +:+ cmd); Run cmd].
Proof. unfold ran, emit. simpl. now rewrite <- List.app_assoc. Qed.

Lemma run_command_ok (cmd : string) (w : World) :
  returncode (shell X cmd (files w)).1 = 0%Z ->
  run_command X cmd true w =
    (Ok (strip (stdout (shell X cmd (files w)).1)), ran X cmd w).
Proof.
  intros Hrc. unfold run_command, subprocess_run, print, ran.
  rewrite !bind_run. cbn [files emit].
  destruct (shell X cmd (files w)) as [p fs]. cbn [fst snd] in *.
  rewrite Hrc. cbn. now rewrite Hrc.
Qed.

Lemma run_command_failed (cmd : string) (w : World) :
  returncode (shell X cmd (files w)).1 <> 0%Z ->
  run_command X cmd true w =
    (Raise (CalledProcessError cmd
              (returncode (shell X cmd (files w)).1)
              (stdout (shell X cmd (files w)).1)
              (stderr (shell X cmd (files w)).1)),
     ran X cmd w).
Proof.
  intros Hrc. unfold run_command, subprocess_run, print, ran.
  rewrite !bind_run. cbn [files emit].
  destruct (shell X cmd (files w)) as [p fs]. cbn [fst snd] in *.
  apply Z.eqb_neq in Hrc. now rewrite Hrc.
Qed.

End WithExternals.

End Commands.

(** * The claims *)

(** C1.  Take a changelog whose first ["## [Unreleased]"] marker is followed
    by the rest of its line and by one more line ([line], ended by a
    newline), and any entry.  [update_changelog] succeeds and rewrites the
    file as the same text with the entry, a newline before it and two after
    it, put in just after the end of [line]: everything before that offset
    and everything after it is unchanged, and the offset is the one where
    the text is cut ([D[:p]], the block, [D[p:]]). *)
Theorem update_changelog_inserts_entry
    (w : World) (entry pre rest line post : string) :
  files w !! "CHANGELOG.md" = Some (Splice.upto_line pre rest line +:+ post) ->
  Text.find unreleased_marker (Splice.upto_line pre rest line +:+ post)
  = Some (String.length pre) ->
  Text.find_nl rest = None ->
  Text.find_nl line = None ->
  exists w' new_content,
    update_changelog entry w = (Ok tt, w') /\
    new_content =
      Splice.upto_line pre rest line +:+
      (Text.NL +:+ entry +:+ Text.NL +:+ Text.NL) +:+ post /\
    files w' = <["CHANGELOG.md" := new_content]> (files w) /\
    environ w' = environ w /\
    trace w' =
      trace w ++ [Print "Updating CHANGELOG.md"; ReadFile "CHANGELOG.md";
                  WriteFile "CHANGELOG.md" new_content] /\
    let p := String.length (Splice.upto_line pre rest line) in
    let D := Splice.upto_line pre rest line +:+ post in
    Text.slice_to p D = Splice.upto_line pre rest line /\
    Text.slice_from p D = post /\
    new_content =
      Text.slice_to p D +:+ (Text.NL +:+ entry +:+ Text.NL +:+ Text.NL) +:+
      Text.slice_from p D.
Proof.
  intros Hfile Hfind Hrest Hline.
  pose proof (Changelog.shape pre rest line post Hfind Hrest Hline) as Hsearch.
  pose proof (Changelog.update_found w entry _ _ _ Hfile Hsearch) as Hrun.
  rewrite TextFacts.slice_to_app, TextFacts.slice_from_app in Hrun.
  eexists _, _. split; [exact Hrun |]. split; [reflexivity |].
  split; [reflexivity |]. split; [reflexivity |].
  split; [apply Changelog.trace_written |].
  cbv zeta. rewrite TextFacts.slice_to_app, TextFacts.slice_from_app.
  now repeat split.
Qed.

Lemma update_changelog_inserts_entry_witness :
  exists w' new_content,
    update_changelog Examples.entry Examples.w_full = (Ok tt, w') /\
    new_content =
      Splice.upto_line ("# Changelog" +:+ Text.NL +:+ Text.NL) "" "" +:+
      (Text.NL +:+ Examples.entry +:+ Text.NL +:+ Text.NL) +:+
      ("## [1.2.3] - 2025-01-01" +:+ Text.NL +:+ "- first release" +:+ Text.NL)
    /\ files w' = <["CHANGELOG.md" := new_content]> (files Examples.w_full).
Proof.
  destruct (update_changelog_inserts_entry Examples.w_full Examples.entry
              ("# Changelog" +:+ Text.NL +:+ Text.NL) "" ""
              ("## [1.2.3] - 2025-01-01" +:+ Text.NL +:+ "- first release"
               +:+ Text.NL))
    as (w' & new_content & Hrun & Hnew & Hfiles & _);
    [vm_compute; reflexivity | vm_compute; reflexivity | reflexivity
    | reflexivity |].
  exists w', new_content. split; [exact Hrun |]. split; [exact Hnew |].
  exact Hfiles.
Defined.

(** C2.  When the changelog holds no ["## [Unreleased]"] marker,
    [update_changelog] writes nothing: it prints an error and raises
    [SystemExit(1)], which ends the process with status 1 whatever was to
    follow; the files are as they were. *)
Theorem update_changelog_refuses_without_marker
    (w : World) (entry D : string) :
  files w !! "CHANGELOG.md" = Some D ->
  Text.find unreleased_marker D = None ->
  exists w',
    update_changelog entry w = (Raise (SystemExit 1), w') /\
    exit_code (SystemExit 1) = 1%Z /\
    files w' = files w /\
    environ w' = environ w /\
    trace w' =
      trace w ++
      [Print "Updating CHANGELOG.md"; ReadFile "CHANGELOG.md";
       Print "Error: Could not find [Unreleased] section in CHANGELOG.md"] /\
    forall (B : Type) (rest : unit -> M B),
      (update_changelog entry ≫= rest) w = (Raise (SystemExit 1), w').
Proof.
  intros Hfile Hfind.
  assert (Hsearch : Regex.search unreleased_re D = None).
  { apply Unreleased.search_none. intros j Hocc.
    now destruct (TextFacts.find_none _ _ Hfind j). }
  pose proof (Changelog.update_not_found w entry D Hfile Hsearch) as Hrun.
  exists (Splice.refused w). split; [exact Hrun |].
  split; [reflexivity |]. split; [reflexivity |]. split; [reflexivity |].
  split; [apply Changelog.trace_refused |].
  intros B rest. now apply RunsFacts.bind_raise.
Qed.

Lemma update_changelog_refuses_without_marker_witness :
  exists w',
    update_changelog Examples.entry Examples.w_no_marker
    = (Raise (SystemExit 1), w') /\
    files w' = files Examples.w_no_marker.
Proof.
  destruct (update_changelog_refuses_without_marker Examples.w_no_marker
              Examples.entry ("# Changelog" +:+ Text.NL))
    as (w' & Hrun & _ & Hfiles & _);
    [vm_compute; reflexivity | vm_compute; reflexivity |].
  exists w'. split; [exact Hrun | exact Hfiles].
Defined.

(** C9.  When the first ["## [Unreleased]"] marker of the changelog has
    fewer than two newlines after it, so that no newline-terminated line
    follows the marker line, [update_changelog] gives up in the same way,
    although the marker is there: error message, [SystemExit(1)], files
    untouched. *)
Theorem update_changelog_refuses_short_section
    (w : World) (entry pre rest : string) :
  files w !! "CHANGELOG.md" = Some (pre +:+ unreleased_marker +:+ rest) ->
  Text.find unreleased_marker (pre +:+ unreleased_marker +:+ rest)
  = Some (String.length pre) ->
  Text.count_nl rest < 2 ->
  exists w',
    update_changelog entry w = (Raise (SystemExit 1), w') /\
    exit_code (SystemExit 1) = 1%Z /\
    files w' = files w /\
    environ w' = environ w /\
    trace w' =
      trace w ++
      [Print "Updating CHANGELOG.md"; ReadFile "CHANGELOG.md";
       Print "Error: Could not find [Unreleased] section in CHANGELOG.md"] /\
    forall (B : Type) (rest : unit -> M B),
      (update_changelog entry ≫= rest) w = (Raise (SystemExit 1), w').
Proof.
  intros Hfile Hfind Hcount.
  pose proof (Changelog.short pre rest Hfind Hcount) as Hsearch.
  pose proof (Changelog.update_not_found w entry _ Hfile Hsearch) as Hrun.
  exists (Splice.refused w). split; [exact Hrun |].
  split; [reflexivity |]. split; [reflexivity |]. split; [reflexivity |].
  split; [apply Changelog.trace_refused |].
  intros B k. now apply RunsFacts.bind_raise.
Qed.

Lemma update_changelog_refuses_short_section_witness :
  exists w',
    update_changelog Examples.entry Examples.w_marker_last
    = (Raise (SystemExit 1), w') /\
    files w' = files Examples.w_marker_last.
Proof.
  destruct (update_changelog_refuses_short_section Examples.w_marker_last
              Examples.entry ("# Changelog" +:+ Text.NL) Text.NL)
    as (w' & Hrun & _ & Hfiles & _);
    [vm_compute; reflexivity | vm_compute; reflexivity | vm_compute; lia |].
  exists w'. split; [exact Hrun | exact Hfiles].
Defined.

(** C6.  After a successful [update_changelog], the block that was put in
    (the entry with its newlines) sits at the insertion offset of the new
    text, and cutting it out gives back the old text, character for
    character.  The offset can be found again in the new text, by the same
    search; so two changelogs that the same entry turns into the same text
    are equal. *)
Theorem update_changelog_invertible (w w' : World) (entry D : string) :
  files w !! "CHANGELOG.md" = Some D ->
  update_changelog entry w = (Ok tt, w') ->
  exists i p D',
    Regex.search unreleased_re D = Some (i, p) /\
    files w' !! "CHANGELOG.md" = Some D' /\
    Text.slice_to (String.length (Splice.block entry)) (Text.slice_from p D')
    = Splice.block entry /\
    Text.remove_span p (String.length (Splice.block entry)) D' = D /\
    Regex.search unreleased_re D' = Some (i, p) /\
    forall (w2 w2' : World) (D2 : string),
      files w2 !! "CHANGELOG.md" = Some D2 ->
      update_changelog entry w2 = (Ok tt, w2') ->
      files w2' !! "CHANGELOG.md" = Some D' ->
      D2 = D.
Proof.
  intros Hfile Hrun.
  destruct (Changelog.update_inv _ _ _ _ Hfile Hrun) as (i & p & Hsearch & ->).
  pose proof (RegexFacts.search_le _ _ _ _ Hsearch) as Hle.
  destruct (Changelog.remove_block D (Splice.block entry) p ltac:(lia))
    as [Hremove Hblock].
  pose proof (Unreleased.search_stable D
                (Splice.block entry +:+ Text.slice_from p D) i p Hsearch)
    as Hstable.
  exists i, p, (Text.slice_to p D +:+ Splice.block entry +:+ Text.slice_from p D).
  split; [exact Hsearch |].
  split; [apply lookup_insert_eq |].
  split; [exact Hblock |]. split; [exact Hremove |]. split; [exact Hstable |].
  intros w2 w2' D2 Hfile2 Hrun2 Hsame.
  destruct (Changelog.update_inv _ _ _ _ Hfile2 Hrun2)
    as (i2 & p2 & Hsearch2 & ->).
  assert (Heq : Text.slice_to p2 D2 +:+ Splice.block entry +:+
                Text.slice_from p2 D2 =
                Text.slice_to p D +:+ Splice.block entry +:+
                Text.slice_from p D).
  { unfold Splice.written in Hsame. cbn [files emit set_files] in Hsame.
    rewrite lookup_insert_eq in Hsame. now injection Hsame. }
  pose proof (Unreleased.search_stable D2
                (Splice.block entry +:+ Text.slice_from p2 D2) i2 p2 Hsearch2)
    as Hstable2.
  rewrite Heq, Hstable in Hstable2. injection Hstable2 as <- <-.
  pose proof (RegexFacts.search_le _ _ _ _ Hsearch2) as Hle2.
  destruct (Changelog.remove_block D2 (Splice.block entry) p ltac:(lia))
    as [Hremove2 _].
  now rewrite <- Hremove2, Heq.
Qed.

Lemma update_changelog_invertible_witness :
  exists i p D',
    Regex.search unreleased_re Examples.changelog = Some (i, p) /\
    files (update_changelog Examples.entry Examples.w_full).2
      !! "CHANGELOG.md" = Some D' /\
    Text.remove_span p (String.length (Splice.block Examples.entry)) D'
    = Examples.changelog.
Proof.
  destruct (update_changelog_invertible Examples.w_full
              (update_changelog Examples.entry Examples.w_full).2
              Examples.entry Examples.changelog)
    as (i & p & D' & Hsearch & Hfile & _ & Hremove & _);
    [vm_compute; reflexivity | vm_compute; reflexivity |].
  exists i, p, D'. split; [exact Hsearch |]. split; [exact Hfile |].
  exact Hremove.
Defined.

(** C10.  [get_pr_details] fails only when [git log] fails.  When [git log]
    succeeds it returns the title, or the empty string when [PR_TITLE] is
    absent, the body, or ["No description provided"] when [PR_BODY] is
    absent, and the stripped output of [git log]; what follows in the
    script goes on with these values. *)
Theorem get_pr_details_defaults
    (X : Externals) (w : World) (base_sha head_sha : string) :
  let cmd := "git log --format='%s%n%b' " +:+ base_sha +:+ ".." +:+ head_sha in
  let p := (shell X cmd (files w)).1 in
  (returncode p = 0%Z ->
   exists pr w',
     get_pr_details X base_sha head_sha w = (Ok pr, w') /\
     (environ w !! "PR_TITLE" = None -> title pr = "") /\
     (environ w !! "PR_BODY" = None -> body pr = "No description provided") /\
     (forall t, environ w !! "PR_TITLE" = Some t -> title pr = t) /\
     (forall b, environ w !! "PR_BODY" = Some b -> body pr = b) /\
     commits pr = strip (stdout p) /\
     forall (B : Type) (rest : PrDetails -> M B),
       (get_pr_details X base_sha head_sha ≫= rest) w = rest pr w') /\
  (returncode p <> 0%Z ->
   exists w',
     get_pr_details X base_sha head_sha w =
       (Raise (CalledProcessError cmd (returncode p) (stdout p) (stderr p)),
        w')).
Proof.
  intros cmd p. split; intros Hrc.
  - exists (mkPr (default "" (environ w !! "PR_TITLE"))
              (default "No description provided" (environ w !! "PR_BODY"))
              (strip (stdout p))), (Runs.ran X cmd w).
    assert (Hrun : get_pr_details X base_sha head_sha w =
                   (Ok (mkPr (default "" (environ w !! "PR_TITLE"))
                          (default "No description provided"
                             (environ w !! "PR_BODY"))
                          (strip (stdout p))), Runs.ran X cmd w)).
    { unfold get_pr_details, getenv_default.
      rewrite !RunsFacts.bind_run. fold cmd.
      now rewrite (Commands.run_command_ok X cmd w Hrc). }
    split; [exact Hrun |].
    split; [now intros -> |]. split; [now intros -> |].
    split; [now intros t -> |]. split; [now intros b -> |].
    split; [reflexivity |].
    intros B rest. now rewrite RunsFacts.bind_run, Hrun.
  - exists (Runs.ran X cmd w).
    unfold get_pr_details, getenv_default.
    rewrite !RunsFacts.bind_run. fold cmd.
    now rewrite (Commands.run_command_failed X cmd w Hrc).
Qed.

Lemma get_pr_details_defaults_witness :
  exists pr w',
    get_pr_details Examples.X_ok "aaa" "bbb" Examples.w_full = (Ok pr, w') /\
    title pr = "" /\ body pr = "No description provided".
Proof.
  destruct (get_pr_details_defaults Examples.X_ok Examples.w_full "aaa" "bbb")
    as [Hok _].
  destruct (Hok eq_refl) as (pr & w' & Hrun & Htitle & Hbody & _).
  exists pr, w'. split; [exact Hrun |].
  split; [apply Htitle | apply Hbody]; vm_compute; reflexivity.
Defined.

(** C5, as the code has it.  [run_command] passes [check=True] on to
    [subprocess.run], so a command that exits with a non-zero status makes
    [subprocess.run] raise [CalledProcessError] before [run_command] looks
    at the status: the lines that print the captured error text and call
    [sys.exit(1)] are never reached.  What follows in the script is not
    run, and the process ends with status 1 and the traceback of the
    exception, whose text names the command and its status only; the
    captured error text is not printed. *)
Theorem run_command_failure_raises
    (X : Externals) (w : World) (cmd : string) :
  let p := (shell X cmd (files w)).1 in
  returncode p <> 0%Z ->
  exists w' e,
    e = CalledProcessError cmd (returncode p) (stdout p) (stderr p) /\
    run_command X cmd true w = (Raise e, w') /\
    trace w' = trace w ++ [Print ("Running: " +:+ cmd); Run cmd] /\
    (forall (B : Type) (rest : string -> M B),
       (run_command X cmd true ≫= rest) w = (Raise e, w')) /\
    exit_code e = 1%Z /\
    exn_str X e = CalledProcessError_str X cmd (returncode p).
Proof.
  intros p Hrc. eexists _, _. split; [reflexivity |].
  pose proof (Commands.run_command_failed X cmd w Hrc) as Hrun.
  split; [exact Hrun |]. split; [apply Commands.trace_ran |].
  split; [|split; reflexivity].
  intros B rest. now apply RunsFacts.bind_raise.
Qed.

Lemma run_command_failure_raises_witness :
  exists w',
    run_command Examples.X_rejected "git push" true Examples.w_full =
      (Raise (CalledProcessError "git push" 1 "" "remote: rejected"), w') /\
    trace w' = [Print "Running: git push"; Run "git push"].
Proof.
  destruct (run_command_failure_raises Examples.X_rejected Examples.w_full
              "git push")
    as (w' & e & He & Hrun & Htrace & _); [vm_compute; discriminate |].
  exists w'. subst e. split; [exact Hrun | exact Htrace].
Defined.

(** The whole script when [git push] is rejected: exit status 1; the last
    thing on the streams is the traceback, and the captured error text
    ("remote: rejected") is nowhere in the output. *)
Example script_when_push_rejected :
  (script Examples.X_rejected Examples.w_full).1 = 1%Z /\
  last (trace (script Examples.X_rejected Examples.w_full).2) =
    Some (Traceback "subprocess.CalledProcessError"
            "Command 'git push' returned non-zero exit status 1.") /\
  ~ In (Print "Error: remote: rejected")
      (trace (script Examples.X_rejected Examples.w_full).2).
Proof.
  split; [vm_compute; reflexivity |]. split; [vm_compute; reflexivity |].
  vm_compute. intuition discriminate.
Qed.

(** C3 does not hold of the code: with a current version 1.2.3, a response
    that passes validation may say "patch" and "1.0.0", and
    [analyze_version_bump] returns just that. *)
Lemma new_version_unchecked_counterexample :
  ~ (forall (X : Externals) (w w' : World) (current_version : string)
       (pr_details : PrDetails) (kind v entry : string)
       (old : Semver.version),
        Semver.parse current_version = Some old ->
        analyze_version_bump X current_version pr_details w
        = (Ok (kind, v, entry), w') ->
        exists k,
          Semver.parse_bump kind = Some k /\
          Semver.parse v = Some (Semver.increment k old) /\
          Semver.ltb old (Semver.increment k old) = true).
Proof.
  intros H.
  destruct (H Examples.X_stale Examples.w_full
              (analyze_version_bump Examples.X_stale "1.2.3" Examples.pr
                 Examples.w_full).2
              "1.2.3" Examples.pr "patch" "1.0.0" Examples.entry (1, 2, 3)
              eq_refl ltac:(vm_compute; reflexivity))
    as (k & Hk & Hv & _).
  vm_compute in Hk. injection Hk as <-. vm_compute in Hv. discriminate.
Qed.

(** C3, amended.  What [analyze_version_bump] returns is what the validated
    response of the API holds: its [version_bump], its [new_version] and its
    [changelog_entry], three strings that the code passes on as they are,
    without comparing them with the current version.  When the new version
    does follow the rule of the bump kind, it is greater than the current
    one. *)
Theorem analyze_version_bump_returns_response
    (X : Externals) (w w' : World) (current_version : string)
    (pr_details : PrDetails) (kind v entry : string) :
  analyze_version_bump X current_version pr_details w
  = (Ok (kind, v, entry), w') ->
  (exists api_key content r,
     environ w !! "ANTHROPIC_API_KEY" = Some api_key /\
     messages_create X api_key (prompt X current_version pr_details)
     = inr content /\
     model_validate_json X content = inr r /\
     kind = version_bump r /\ v = new_version r /\
     entry = changelog_entry r) /\
  (forall k old,
     Semver.parse_bump kind = Some k ->
     Semver.parse current_version = Some old ->
     Semver.parse v = Some (Semver.increment k old) ->
     exists new, Semver.parse v = Some new /\ Semver.ltb old new = true).
Proof.
  intros Hrun. split.
  - destruct (Steps.analyze_ok X _ _ _ _ _ _ _ Hrun)
      as (api_key & content & r & Hkey & Hcall & Hvalid & -> & -> & -> & _).
    now exists api_key, content, r.
  - intros k [[a b] c] _ _ Hv. eexists. split; [exact Hv |].
    unfold Semver.ltb.
    destruct k; cbn [Semver.increment];
      rewrite ?Nat.eqb_refl, ?Nat.ltb_irrefl; cbn [orb andb];
      rewrite ?(proj2 (Nat.ltb_lt _ _) (Nat.lt_succ_diag_r _));
      reflexivity.
Qed.

Lemma analyze_version_bump_returns_response_witness :
  exists api_key content r,
    environ Examples.w_full !! "ANTHROPIC_API_KEY" = Some api_key /\
    messages_create Examples.X_ok api_key (prompt Examples.X_ok "1.2.3" Examples.pr)
    = inr content /\
    model_validate_json Examples.X_ok content = inr r /\
    "1.2.4" = new_version r.
Proof.
  destruct (analyze_version_bump_returns_response Examples.X_ok
              Examples.w_full
              (analyze_version_bump Examples.X_ok "1.2.3" Examples.pr
                 Examples.w_full).2
              "1.2.3" Examples.pr "patch" "1.2.4" Examples.entry)
    as [(api_key & content & r & Hkey & Hcall & Hvalid & _ & Hv & _) _];
    [vm_compute; reflexivity |].
  now exists api_key, content, r.
Defined.

(** C8.  When the API call raises, or its answer fails validation, the
    decision step prints the error and its traceback and raises
    [SystemExit(1)]: the API has been called once, nothing is written, and
    whatever was to follow in the script is not run.  And when the API or
    the validation fails on every request, the process ends with a
    non-zero status having done nothing but output, reading, [git log] and
    the call of the API. *)
Theorem decision_failure_is_fatal (X : Externals) :
  (forall (w : World) (current_version : string) (pr_details : PrDetails)
          (api_key : string),
     environ w !! "ANTHROPIC_API_KEY" = Some api_key ->
     api_key <> "" ->
     match messages_create X api_key (prompt X current_version pr_details) with
     | inl _ => True
     | inr content =>
         match model_validate_json X content with
         | inl _ => True
         | inr _ => False
         end
     end ->
     exists w' cls msg shown,
       analyze_version_bump X current_version pr_details w
       = (Raise (SystemExit 1), w') /\
       exit_code (SystemExit 1) = 1%Z /\
       (messages_create X api_key (prompt X current_version pr_details)
        = inl (cls, msg) /\ shown = []
        \/ exists content,
            messages_create X api_key (prompt X current_version pr_details)
            = inr content /\
            model_validate_json X content = inl (cls, msg) /\
            shown = [Print ("Claude response: " +:+ content)]) /\
       trace w' =
         trace w ++ [ApiCall (prompt X current_version pr_details)] ++
         shown ++
         [Print ("Error calling Claude API: " +:+ msg); Traceback cls msg] /\
       files w' = files w /\
       environ w' = environ w /\
       forall (B : Type) (rest : string * string * string -> M B),
         (analyze_version_bump X current_version pr_details ≫= rest) w
         = (Raise (SystemExit 1), w')) /\
  (Runs.decision_fails X ->
   forall w : World,
     (script X w).1 <> 0%Z /\
     environ (script X w).2 = environ w /\
     exists evs,
       trace (script X w).2 = trace w ++ evs /\
       Forall (fun ev => Runs.reads_and_asks ev = true) evs).
Proof.
  split.
  - intros w cur pr api_key Hkey Hne Hfail.
    pose proof (Steps.analyze_run X cur pr w) as Hrun. cbv zeta in Hrun.
    rewrite Hkey in Hrun.
    change (fstr (Some api_key)) with api_key in Hrun. cbn [not_] in Hrun.
    apply String.eqb_neq in Hne. rewrite Hne in Hrun.
    destruct (messages_create X api_key (prompt X cur pr))
      as [[cls msg]|content].
    + eexists _, cls, msg, []. split; [exact Hrun |].
      split; [reflexivity |]. split; [now left |].
      split; [cbn [emit trace]; now rewrite <- !List.app_assoc |].
      split; [reflexivity |]. split; [reflexivity |].
      intros B rest. now apply RunsFacts.bind_raise.
    + destruct (model_validate_json X content) as [[cls msg]|r] eqn:E;
        [|contradiction].
      eexists _, cls, msg, [_]. split; [exact Hrun |].
      split; [reflexivity |]. split; [right; now exists content |].
      split; [cbn [emit trace]; now rewrite <- !List.app_assoc |].
      split; [reflexivity |]. split; [reflexivity |].
      intros B rest. now apply RunsFacts.bind_raise.
  - intros Hfail w. apply Steps.script_aborts.
    + intros [] H; first [discriminate H | reflexivity].
    + now apply Steps.main_aborts_fails.
Qed.

Lemma decision_failure_is_fatal_witness :
  (exists w',
     analyze_version_bump Examples.X_down "1.2.3" Examples.pr Examples.w_full
     = (Raise (SystemExit 1), w') /\
     files w' = files Examples.w_full) /\
  (script Examples.X_down Examples.w_full).1 <> 0%Z.
Proof.
  destruct (decision_failure_is_fatal Examples.X_down) as [Hstep Hscript].
  split.
  - destruct (Hstep Examples.w_full "1.2.3" Examples.pr "key")
      as (w' & cls & msg & shown & Hrun & _ & _ & _ & Hfiles & _);
      [vm_compute; reflexivity | discriminate | exact I |].
    exists w'. split; [exact Hrun | exact Hfiles].
  - apply Hscript. intros api_key text. exact I.
Defined.

(** What is allowed before the absence of a commit reference or of the API
    credential is noticed is not work. *)
Lemma only_reads_no_work (ev : event) :
  Runs.only_reads ev = true -> Runs.no_work ev = true.
Proof.
  destruct ev as [line|cls msg|path|path text|path text|cmd|text];
    try reflexivity; try discriminate.
  cbn [Runs.only_reads]. intros H.
  rewrite (TextFacts.prefix_split _ _ H). reflexivity.
Qed.

Lemma is_output_only_reads (ev : event) :
  Runs.is_output ev = true -> Runs.only_reads ev = true.
Proof. destruct ev; first [discriminate | reflexivity]. Qed.

(** C4 does not hold of the code for the registry credentials: without
    them, and with everything else in order, the changelog has been
    rewritten and the commit pushed when the process exits. *)
Lemma missing_token_noticed_after_push_counterexample :
  ~ (forall (X : Externals) (w : World) (name : string),
        In name Runs.required ->
        environ w !! name = None ->
        (script X w).1 <> 0%Z /\
        exists evs,
          trace (script X w).2 = trace w ++ evs /\
          Forall (fun ev => Runs.no_work ev = true) evs).
Proof.
  intros H.
  destruct (H Examples.X_ok Examples.w_no_tokens "OPENVSX_TOKEN")
    as (_ & evs & Htrace & Hev).
  - cbn. tauto.
  - vm_compute. reflexivity.
  - vm_compute in Htrace. subst evs.
    apply (proj1 (List.Forall_forall _ _)) with (x := Run "git push") in Hev.
    + vm_compute in Hev. discriminate.
    + cbn [In]. tauto.
Qed.

(** C4, amended.  When a required variable is absent (or empty) the process
    ends with a non-zero status.  For the two commit references this
    happens before anything but output; for the API credential, before
    anything but output, reading [package.json] and [git log]: in both
    cases before a file is modified, a commit pushed or an artifact
    published.  The registry credentials are looked at when the publish
    step begins: without them the process ends before the publishing tools
    are installed, the package built or published, or a tag made. *)
Theorem missing_variable_exits (X : Externals) (w : World) (name : string) :
  In name Runs.required ->
  not_ (environ w !! name) = true ->
  (script X w).1 <> 0%Z /\
  environ (script X w).2 = environ w /\
  exists evs,
    trace (script X w).2 = trace w ++ evs /\
    Forall (fun ev => Runs.before_check name ev = true) evs /\
    (name <> "WILDESTAI_AZURE_PUBLISH_PAT" -> name <> "OPENVSX_TOKEN" ->
     Forall (fun ev => Runs.no_work ev = true) evs).
Proof.
  intros Hin Habsent.
  assert (Hsha : not_ (environ w !! "BASE_SHA")
                 || not_ (environ w !! "HEAD_SHA") = true ->
                 (script X w).1 <> 0%Z /\
                 environ (script X w).2 = environ w /\
                 exists evs,
                   trace (script X w).2 = trace w ++ evs /\
                   Forall (fun ev => Runs.is_output ev = true) evs /\
                   Forall (fun ev => Runs.no_work ev = true) evs).
  { intros H. unfold script. rewrite (Steps.main_no_sha X w H).
    split; [discriminate |]. split; [reflexivity |].
    eexists [_; _]. cbn [snd emit trace]. rewrite <- List.app_assoc.
    split; [reflexivity |]. split; now repeat constructor. }
  cbn [Runs.required In] in Hin.
  destruct Hin as [<-|[<-|[<-|[<-|[<-|[]]]]]].
  - destruct Hsha as (Hcode & Henv & evs & Htrace & Hout & Hwork);
      [now rewrite Habsent |].
    split; [exact Hcode |]. split; [exact Henv |]. exists evs.
    split; [exact Htrace |]. split; [exact Hout | now intros _ _].
  - destruct Hsha as (Hcode & Henv & evs & Htrace & Hout & Hwork);
      [rewrite Habsent; apply orb_true_r |].
    split; [exact Hcode |]. split; [exact Henv |]. exists evs.
    split; [exact Htrace |]. split; [exact Hout | now intros _ _].
  - destruct (Steps.script_aborts X Runs.only_reads w)
      as (Hcode & Henv & evs & Htrace & Hev).
    + exact is_output_only_reads.
    + now apply Steps.main_aborts_no_key.
    + split; [exact Hcode |]. split; [exact Henv |]. exists evs.
      split; [exact Htrace |]. split; [exact Hev |]. intros _ _.
      eapply Forall_impl; [exact Hev | exact only_reads_no_work].
  - destruct (Steps.script_aborts X Runs.nothing_released w)
      as (Hcode & Henv & evs & Htrace & Hev).
    + intros [] H; first [discriminate H | reflexivity].
    + apply Steps.main_aborts_no_token. now rewrite Habsent.
    + split; [exact Hcode |]. split; [exact Henv |]. exists evs.
      split; [exact Htrace |]. split; [exact Hev |]. now intros Hne.
  - destruct (Steps.script_aborts X Runs.nothing_released w)
      as (Hcode & Henv & evs & Htrace & Hev).
    + intros [] H; first [discriminate H | reflexivity].
    + apply Steps.main_aborts_no_token. rewrite Habsent. apply orb_true_r.
    + split; [exact Hcode |]. split; [exact Henv |]. exists evs.
      split; [exact Htrace |]. split; [exact Hev |]. now intros _ Hne.
Qed.

Lemma missing_variable_exits_witness :
  (script Examples.X_ok Examples.w_no_tokens).1 <> 0%Z /\
  exists evs,
    trace (script Examples.X_ok Examples.w_no_tokens).2
    = trace Examples.w_no_tokens ++ evs /\
    Forall (fun ev => Runs.nothing_released ev = true) evs.
Proof.
  destruct (missing_variable_exits Examples.X_ok Examples.w_no_tokens
              "OPENVSX_TOKEN")
    as (Hcode & _ & evs & Htrace & Hev & _);
    [cbn; tauto | vm_compute; reflexivity |].
  split; [exact Hcode |]. exists evs. split; [exact Htrace | exact Hev].
Defined.

(** C7.  When [GITHUB_OUTPUT] names a file and [main] returns, the run has
    appended to that file exactly two records, as its last two effects:
    [new_version=], the new version and a newline; and [changelog<<EOF], a
    newline, the changelog entry, a newline, [EOF] and a newline.  The
    version and the entry are those of the validated answer to the API call
    of this run; nothing else is appended to any file. *)
Theorem main_writes_outputs (X : Externals) (w w' : World) (path : string) :
  environ w !! "GITHUB_OUTPUT" = Some path ->
  path <> "" ->
  main X w = (Ok tt, w') ->
  exists api_key text content r evs w1,
    messages_create X api_key text = inr content /\
    model_validate_json X content = inr r /\
    trace w1 = trace w ++ evs /\
    In (ApiCall text) evs /\
    Forall (fun ev => Runs.no_append ev = true) evs /\
    trace w' =
      trace w1 ++
      [AppendFile path ("new_version=" +:+ new_version r +:+ Text.NL);
       AppendFile path
         ("changelog<<EOF" +:+ Text.NL +:+ changelog_entry r +:+ Text.NL +:+
          "EOF" +:+ Text.NL)] /\
    files w' =
      <[path := default "" (files w1 !! path) +:+
                ("new_version=" +:+ new_version r +:+ Text.NL) +:+
                ("changelog<<EOF" +:+ Text.NL +:+ changelog_entry r +:+
                 Text.NL +:+ "EOF" +:+ Text.NL)]> (files w1) /\
    environ w' = environ w.
Proof.
  intros Hout Hne Hrun. unfold main in Hrun.
  pose proof (RunsFacts.reach_refl Runs.no_append w) as R.
  do 3 Steps.advance Hrun R.
  match type of Hrun with
  | (if ?c then _ else _) _ = _ => destruct c
  end.
  { apply RunsFacts.bind_ok in Hrun. destruct Hrun as (? & ? & _ & Hrun).
    discriminate Hrun. }
  do 4 Steps.advance Hrun R.
  apply RunsFacts.bind_ok in Hrun.
  destruct Hrun as ([[kind v] entry] & wd & Hdecision & Hrun).
  apply Steps.analyze_ok in Hdecision.
  destruct Hdecision
    as (api_key & content & r & _ & Hcall & Hvalid & -> & -> & -> & ->).
  match type of Hrun with
  | _ ?wd = _ => pose proof (RunsFacts.reach_refl Runs.no_append wd) as R2
  end.
  do 10 Steps.advance Hrun R2.
  apply RunsFacts.bind_ok in Hrun.
  destruct Hrun as (github_output & wl & Hget & Hrun).
  injection Hget as <- <-.
  destruct R as (Henv1 & evs1 & Htrace1 & Hev1).
  destruct R2 as (Henv2 & evs2 & Htrace2 & Hev2).
  cbn [environ emit] in Henv2. cbn [trace emit] in Htrace2.
  rewrite Henv2, Henv1, Hout in Hrun.
  change (fstr (Some path)) with path in Hrun. cbn [not_] in Hrun.
  apply String.eqb_neq in Hne. rewrite Hne in Hrun.
  unfold append_file in Hrun. rewrite RunsFacts.bind_run in Hrun.
  injection Hrun as <-.
  eexists api_key, _, content, r, _, _.
  split; [exact Hcall |]. split; [exact Hvalid |].
  split; [rewrite Htrace2, Htrace1, <- !List.app_assoc; reflexivity |].
  split; [apply in_or_app; right; now left |].
  split.
  { apply Forall_app. split; [exact Hev1 |].
    constructor; [reflexivity |]. constructor; [reflexivity | exact Hev2]. }
  split; [cbn [trace emit set_files]; now rewrite <- List.app_assoc |].
  split; [|cbn [environ emit set_files]; congruence].
  cbn [files emit set_files].
  rewrite lookup_insert_eq. cbn [default from_option id].
  now rewrite insert_insert_eq, TextFacts.app_assoc.
Qed.

Lemma main_writes_outputs_witness :
  exists api_key text content r evs w1,
    messages_create Examples.X_ok api_key text = inr content /\
    model_validate_json Examples.X_ok content = inr r /\
    trace w1 = trace Examples.w_full ++ evs /\
    In (ApiCall text) evs /\
    trace (main Examples.X_ok Examples.w_full).2 =
      trace w1 ++
      [AppendFile "out.txt" ("new_version=" +:+ new_version r +:+ Text.NL);
       AppendFile "out.txt"
         ("changelog<<EOF" +:+ Text.NL +:+ changelog_entry r +:+ Text.NL +:+
          "EOF" +:+ Text.NL)].
Proof.
  destruct (main_writes_outputs Examples.X_ok Examples.w_full
              (main Examples.X_ok Examples.w_full).2 "out.txt")
    as (api_key & text & content & r & evs & w1 & Hcall & Hvalid & Htrace
        & Hin & _ & Hlast & _);
    [vm_compute; reflexivity | discriminate | vm_compute; reflexivity |].
  now exists api_key, text, content, r, evs, w1.
Defined.

(** * More of the script

    ** Sequences of steps *)

Module CoverFacts.
Import Runs RunsFacts Cover.

Lemma update_package_json_steps (X : Externals) (v : string) :
  update_package_json X v = do_steps X (package_steps v).
Proof. reflexivity. Qed.

Lemma commit_and_push_steps (X : Externals) (v : string) :
  commit_and_push X v = do_steps X (commit_steps v).
Proof. reflexivity. Qed.

Lemma create_git_tag_steps (X : Externals) (v : string) :
  create_git_tag X v = do_steps X (tag_steps v).
Proof. reflexivity. Qed.

Lemma run_command_cases (X : Externals) (cmd : string) (w : World) :
  returncode (shell X cmd (files w)).1 = 0%Z /\
  run_command X cmd true w =
    (Ok (strip (stdout (shell X cmd (files w)).1)), ran X cmd w)
  \/
  returncode (shell X cmd (files w)).1 <> 0%Z /\
  run_command X cmd true w =
    (Raise (CalledProcessError cmd
              (returncode (shell X cmd (files w)).1)
              (stdout (shell X cmd (files w)).1)
              (stderr (shell X cmd (files w)).1)),
     ran X cmd w).
Proof.
  destruct (Z.eq_dec (returncode (shell X cmd (files w)).1) 0%Z) as [H|H].
  - left. split; [exact H | now apply Commands.run_command_ok].
  - right. split; [exact H | now apply Commands.run_command_failed].
Qed.

(** [run_command], whatever [check] is. *)
Lemma run_command_run (X : Externals) (cmd : string) (check : bool)
    (w : World) :
  run_command X cmd check w =
    (if check && negb (returncode (shell X cmd (files w)).1 =? 0)%Z
     then Raise (CalledProcessError cmd
                   (returncode (shell X cmd (files w)).1)
                   (stdout (shell X cmd (files w)).1)
                   (stderr (shell X cmd (files w)).1))
     else Ok (strip (stdout (shell X cmd (files w)).1)),
     ran X cmd w).
Proof.
  unfold run_command, subprocess_run, print, ran.
  rewrite !bind_run. cbn [files emit].
  destruct (shell X cmd (files w)) as [p fs]. cbn [fst snd].
  destruct check, (returncode p =? 0)%Z eqn:E; cbn; rewrite ?E;
    reflexivity.
Qed.

Lemma steps_events_cons (s : step) (steps : list step) :
  steps_events (s :: steps) = step_events s ++ steps_events steps.
Proof. reflexivity. Qed.

Lemma steps_events_app (l1 l2 : list step) :
  steps_events (l1 ++ l2) = steps_events l1 ++ steps_events l2.
Proof.
  induction l1 as [|s l1 IH]; [reflexivity |].
  cbn [app]. now rewrite !steps_events_cons, IH, List.app_assoc.
Qed.

(** A sequence of steps stops at the first command that does not exit
    with status 0, and what it leaves in the trace is what the steps up to
    there leave. *)
Lemma do_steps_outcome (X : Externals) (steps : list step) :
  forall (w w' : World) (r : result unit),
    do_steps X steps w = (r, w') ->
    exists done left,
      steps = done ++ left /\
      trace w' = trace w ++ steps_events done /\
      environ w' = environ w /\
      match r with
      | Ok _ => left = []
      | Raise e =>
          exists before cmd rc out err,
            done = before ++ [Exec cmd] /\
            e = CalledProcessError cmd rc out err /\ rc <> 0%Z
      end.
Proof.
  induction steps as [|s steps IH]; intros w w' r Hrun.
  - injection Hrun as <- <-. exists [], [].
    split; [reflexivity |]. split; [now rewrite List.app_nil_r |].
    now split.
  - destruct s as [line|cmd].
    + change (do_steps X (Say line :: steps))
        with (print line;; do_steps X steps) in Hrun.
      rewrite bind_run in Hrun. cbn [print] in Hrun.
      destruct (IH _ _ _ Hrun) as (done & left & -> & Htrace & Henv & Hr).
      exists (Say line :: done), left. split; [reflexivity |].
      split; [|split; [exact Henv |]].
      { rewrite Htrace, steps_events_cons. cbn [emit trace step_events].
        now rewrite <- List.app_assoc. }
      destruct r as [[]|e]; [exact Hr |].
      destruct Hr as (before & c & rc & out & err & -> & -> & Hrc).
      now exists (Say line :: before), c, rc, out, err.
    + change (do_steps X (Exec cmd :: steps))
        with (run_command X cmd true;; do_steps X steps) in Hrun.
      rewrite bind_run in Hrun.
      destruct (run_command_cases X cmd w) as [[Hrc Hcmd]|[Hrc Hcmd]];
        rewrite Hcmd in Hrun.
      * destruct (IH _ _ _ Hrun) as (done & left & -> & Htrace & Henv & Hr).
        exists (Exec cmd :: done), left. split; [reflexivity |].
        split; [|split; [exact Henv |]].
        { rewrite Htrace, steps_events_cons, Commands.trace_ran.
          cbn [step_events]. now rewrite <- List.app_assoc. }
        destruct r as [[]|e]; [exact Hr |].
        destruct Hr as (before & c & rc & out & err & -> & -> & Hrc').
        now exists (Exec cmd :: before), c, rc, out, err.
      * injection Hrun as <- <-. exists [Exec cmd], steps.
        split; [reflexivity |].
        split; [rewrite Commands.trace_ran; reflexivity |].
        split; [reflexivity |].
        now eexists [], cmd, _, _, _.
Qed.

End CoverFacts.

(** ** Stripping *)

Module StripFacts.
Import Cover.

Lemma rev_app_app (s1 s2 : string) :
  String.rev_app s1 s2 = String.rev s1 +:+ s2.
Proof.
  unfold String.rev. revert s2.
  induction s1 as [|a s1 IH]; intros s2; [reflexivity |].
  cbn [String.rev_app]. rewrite (IH (String a "")), (IH (String a s2)).
  now rewrite TextFacts.app_assoc.
Qed.

Lemma rev_cons (a : ascii) (s : string) :
  String.rev (String a s) = String.rev s +:+ String a "".
Proof. unfold String.rev at 1. cbn [String.rev_app]. apply rev_app_app. Qed.

Lemma rev_app_distr (s1 s2 : string) :
  String.rev (s1 +:+ s2) = String.rev s2 +:+ String.rev s1.
Proof.
  induction s1 as [|a s1 IH].
  - cbn. now rewrite TextFacts.app_empty_r.
  - cbn [String.append]. rewrite !rev_cons, IH.
    now rewrite TextFacts.app_assoc.
Qed.

Lemma rev_involutive (s : string) : String.rev (String.rev s) = s.
Proof.
  induction s as [|a s IH]; [reflexivity |].
  rewrite rev_cons, rev_app_distr, IH. reflexivity.
Qed.

Lemma last_char_snoc (s : string) (a : ascii) :
  last_char (s +:+ String a "") = Some a.
Proof.
  induction s as [|b s IH]; [reflexivity |].
  cbn [String.append last_char]. rewrite IH.
  now destruct (s +:+ String a "") eqn:E; [destruct s; discriminate |].
Qed.

Lemma last_char_rev (s : string) : last_char (String.rev s) = first_char s.
Proof.
  destruct s as [|a s]; [reflexivity |].
  rewrite rev_cons. apply last_char_snoc.
Qed.

Lemma first_char_rev (s : string) : first_char (String.rev s) = last_char s.
Proof. now rewrite <- last_char_rev, rev_involutive. Qed.

Lemma lstrip_first (s : string) (c : ascii) :
  first_char (lstrip s) = Some c -> is_space c = false.
Proof.
  induction s as [|a s IH]; [discriminate |].
  cbn [lstrip]. destruct (is_space a) eqn:E; [exact IH |].
  now intros [= <-].
Qed.

(** What [lstrip] leaves is the end of the text. *)
Lemma lstrip_last (s : string) (c : ascii) :
  last_char (lstrip s) = Some c -> last_char s = Some c.
Proof.
  induction s as [|a s IH]; [discriminate |].
  cbn [lstrip]. destruct (is_space a); [|exact id].
  intros H. specialize (IH H). cbn [last_char].
  now destruct s; [discriminate |].
Qed.

Lemma lstrip_id (s : string) :
  (forall c, first_char s = Some c -> is_space c = false) -> lstrip s = s.
Proof.
  destruct s as [|a s]; [reflexivity |]. intros H.
  cbn [lstrip]. now rewrite (H a eq_refl).
Qed.

Lemma rstrip_last (s : string) (c : ascii) :
  last_char (rstrip s) = Some c -> is_space c = false.
Proof.
  unfold rstrip. rewrite last_char_rev. apply lstrip_first.
Qed.

Lemma rstrip_id (s : string) :
  (forall c, last_char s = Some c -> is_space c = false) -> rstrip s = s.
Proof.
  intros H. unfold rstrip. rewrite lstrip_id; [apply rev_involutive |].
  intros c Hc. apply H. now rewrite <- first_char_rev.
Qed.

Lemma strip_trimmed (s : string) : trimmed (strip s).
Proof.
  unfold strip. split; intros c H.
  - now apply lstrip_first in H.
  - apply lstrip_last in H. now apply rstrip_last in H.
Qed.

Lemma strip_of_trimmed (s : string) : trimmed s -> strip s = s.
Proof.
  intros [Hfirst Hlast]. unfold strip.
  rewrite rstrip_id by exact Hlast. now apply lstrip_id.
Qed.

End StripFacts.

(** ** More on the splice *)

Module SpliceFacts.
Import Text TextFacts Splice.

Lemma find_first (m s : string) (i : nat) :
  occurs_at m s i -> (forall j, j < i -> ~ occurs_at m s j) ->
  find m s = Some i.
Proof.
  intros Hocc Hfirst. destruct (find m s) as [i'|] eqn:E.
  - destruct (find_some _ _ _ E) as [Hocc' Hfirst'].
    destruct (Nat.lt_trichotomy i' i) as [Hlt|[->|Hgt]];
      [now destruct (Hfirst i' Hlt) | reflexivity
      | now destruct (Hfirst' i Hgt)].
  - now destruct (find_none _ _ E i).
Qed.

(** The search succeeds exactly when two newlines follow the first
    marker. *)
Lemma search_some_iff (D : string) :
  (exists i p, Regex.search unreleased_re D = Some (i, p)) <->
  exists i, find unreleased_marker D = Some i /\
            2 <= count_nl (slice_from (i + marker_len) D).
Proof.
  split.
  - intros (i & p & H). apply Unreleased.search_inv in H.
    destruct H as (Hocc & Hfirst & n & Hlines & _).
    exists i. split; [now apply find_first |].
    destruct (Nat.lt_ge_cases
                (count_nl (slice_from (i + marker_len) D)) 2)
      as [Hlt|Hge]; [|exact Hge].
    apply two_lines_end_count in Hlt. congruence.
  - intros (i & Hfind & Hcount). apply find_some in Hfind.
    destruct Hfind as [Hocc Hfirst].
    destruct (two_lines_end (slice_from (i + marker_len) D)) as [n|] eqn:E.
    + exists i, (i + (marker_len + n)). now apply Unreleased.search_found.
    + apply two_lines_end_count in E. lia.
Qed.

Lemma update_missing (w : World) (entry : string) :
  files w !! "CHANGELOG.md" = None ->
  update_changelog entry w =
    (Raise (Exception "FileNotFoundError"
              "[Errno 2] No such file or directory: 'CHANGELOG.md'"),
     emit (Print "Updating CHANGELOG.md") w).
Proof.
  intros H. unfold update_changelog, print, read_file.
  rewrite !RunsFacts.bind_run. cbn [files emit]. now rewrite H.
Qed.

(** Splicing at the same offset of a spliced text. *)
Lemma splice_again (D B1 B2 : string) (p : nat) :
  p <= String.length D ->
  slice_to p (slice_to p D +:+ B1 +:+ slice_from p D) +:+ B2 +:+
  slice_from p (slice_to p D +:+ B1 +:+ slice_from p D)
  = slice_to p D +:+ B2 +:+ B1 +:+ slice_from p D.
Proof.
  intros Hp. pose proof (slice_to_length p D Hp) as Hlen.
  set (A := slice_to p D) in *. set (R := slice_from p D) in *.
  clearbody A R. subst p.
  now rewrite slice_to_app, slice_from_app.
Qed.

End SpliceFacts.

(** ** Properties of single steps *)

(** X1.  Whatever [check] is, [run_command] prints the command line and
    runs the command once.  It raises only when [check] is set and the exit
    status is not 0, and then what it raises is the [CalledProcessError] of
    [subprocess.run]; in every other case it returns the stripped output.
    So it never prints an error line of its own and never raises
    [SystemExit]; with [check=False] a failing command goes unnoticed. *)
Theorem run_command_outcome
    (X : Externals) (cmd : string) (check : bool) (w : World) :
  (run_command X cmd check w).2 = Runs.ran X cmd w /\
  trace (run_command X cmd check w).2
  = trace w ++ [Print ("Running: " +:+ cmd); Run cmd] /\
  (run_command X cmd check w).1 =
    (if check && negb (returncode (shell X cmd (files w)).1 =? 0)%Z
     then Raise (CalledProcessError cmd
                   (returncode (shell X cmd (files w)).1)
                   (stdout (shell X cmd (files w)).1)
                   (stderr (shell X cmd (files w)).1))
     else Ok (strip (stdout (shell X cmd (files w)).1))).
Proof.
  rewrite CoverFacts.run_command_run. split; [reflexivity |].
  split; [apply Commands.trace_ran | reflexivity].
Qed.

(** X2.  What [run_command] returns has no whitespace at either end, and
    stripping it again changes nothing. *)
Theorem run_command_output_trimmed
    (X : Externals) (cmd : string) (check : bool) (w w' : World)
    (out : string) :
  run_command X cmd check w = (Ok out, w') ->
  Cover.trimmed out /\ strip out = out.
Proof.
  intros Hrun. rewrite CoverFacts.run_command_run in Hrun.
  destruct (check && negb _); [discriminate |].
  injection Hrun as <- _. split; [apply StripFacts.strip_trimmed |].
  apply StripFacts.strip_of_trimmed, StripFacts.strip_trimmed.
Qed.

Lemma run_command_output_trimmed_witness :
  Cover.trimmed "fix: parser" /\ strip "fix: parser" = "fix: parser".
Proof.
  apply (run_command_output_trimmed Examples.X_ok "git log" true
           Examples.w_full
           (run_command Examples.X_ok "git log" true Examples.w_full).2).
  vm_compute. reflexivity.
Defined.

(** X3.  With both commit references set, a manifest that is missing, or
    from which no version can be read, ends the script with status 1 and
    the traceback of the exception; no command has been run and the API has
    not been called. *)
Theorem script_without_version (X : Externals) (w : World) :
  not_ (environ w !! "BASE_SHA") = false ->
  not_ (environ w !! "HEAD_SHA") = false ->
  (files w !! "package.json" = None ->
   script X w =
     (1%Z,
      emit (Traceback "FileNotFoundError"
              "[Errno 2] No such file or directory: 'package.json'")
        (emit (Print "=== Starting automated release process ===") w))) /\
  (forall text cls msg,
     files w !! "package.json" = Some text ->
     json_version X text = inl (cls, msg) ->
     script X w =
       (1%Z,
        emit (Traceback cls msg)
          (emit (ReadFile "package.json")
             (emit (Print "=== Starting automated release process ===") w)))).
Proof.
  intros Hbase Hhead.
  assert (Hmain : main X w =
                  (get_current_version X ≫= fun current_version =>
                   print ("Current version: " +:+ current_version);;
                   pr_details ← get_pr_details X
                                  (fstr (environ w !! "BASE_SHA"))
                                  (fstr (environ w !! "HEAD_SHA"));
                   print ("PR Title: " +:+ title pr_details);;
                   '(version_bump, new_version, changelog_entry) ←
                     analyze_version_bump X current_version pr_details;
                   print ("Version bump: " +:+ version_bump);;
                   print ("New version: " +:+ new_version);;
                   print ("Changelog:" +:+ Text.NL +:+ changelog_entry);;
                   update_package_json X new_version;;
                   update_changelog changelog_entry;;
                   commit_and_push X new_version;;
                   publish_extension X;;
                   create_git_tag X new_version;;
                   print "=== Release process completed successfully ===";;
                   print ("Version " +:+ new_version +:+
                          " has been published!");;
                   github_output ← getenv "GITHUB_OUTPUT";
                   if not_ github_output
                   then mret tt
                   else
                     append_file (fstr github_output)
                       ("new_version=" +:+ new_version +:+ Text.NL);;
                     append_file (fstr github_output)
                       ("changelog<<EOF" +:+ Text.NL +:+ changelog_entry +:+
                        Text.NL +:+ "EOF" +:+ Text.NL))
                    (emit (Print "=== Starting automated release process ===")
                       w)).
  { unfold main, getenv, print. rewrite !RunsFacts.bind_run.
    cbv beta iota. cbn [environ emit]. now rewrite Hbase, Hhead. }
  unfold script. rewrite Hmain, RunsFacts.bind_run.
  unfold get_current_version, read_file. rewrite RunsFacts.bind_run.
  cbn [files emit]. split.
  - intros ->. reflexivity.
  - intros text cls msg -> Hjson. rewrite Hjson. reflexivity.
Qed.

Lemma script_without_version_witness :
  (script Examples.X_ok Examples.w_no_manifest).1 = 1%Z.
Proof.
  destruct (script_without_version Examples.X_ok Examples.w_no_manifest)
    as [Hmissing _];
    [vm_compute; reflexivity | vm_compute; reflexivity |].
  rewrite Hmissing; [reflexivity | vm_compute; reflexivity].
Defined.

(** X4.  [update_changelog] returns exactly when [CHANGELOG.md] exists and
    the first ["## [Unreleased]"] in it has at least two newlines after it.
    In every other case (no file, no marker, fewer newlines) it raises and
    no file has been written. *)
Theorem update_changelog_returns_iff
    (w w' : World) (entry : string) (r : result unit) :
  update_changelog entry w = (r, w') ->
  (r = Ok tt <->
   exists D i,
     files w !! "CHANGELOG.md" = Some D /\
     Text.find unreleased_marker D = Some i /\
     2 <= Text.count_nl
            (Text.slice_from (i + String.length unreleased_marker) D)) /\
  (r <> Ok tt -> files w' = files w).
Proof.
  intros Hrun.
  destruct (files w !! "CHANGELOG.md") as [D|] eqn:Hfile.
  - destruct (Regex.search unreleased_re D) as [[i p]|] eqn:Hsearch.
    + rewrite (Changelog.update_found _ _ _ _ _ Hfile Hsearch) in Hrun.
      injection Hrun as <- <-. split; [|now intros []].
      split; [intros _ | reflexivity].
      destruct (proj1 (SpliceFacts.search_some_iff D)) as (i' & Hfind & Hc);
        [now exists i, p |].
      now exists D, i'.
    + rewrite (Changelog.update_not_found _ _ _ Hfile Hsearch) in Hrun.
      injection Hrun as <- <-. split; [|reflexivity].
      split; [discriminate |]. intros (D' & i & [= <-] & Hfind & Hcount).
      destruct (proj2 (SpliceFacts.search_some_iff D)) as (i' & p & H);
        [now exists i | congruence].
  - rewrite (SpliceFacts.update_missing _ _ Hfile) in Hrun.
    injection Hrun as <- <-. split; [|reflexivity].
    split; [discriminate |]. now intros (D & i & [=] & _).
Qed.

Lemma update_changelog_returns_iff_witness :
  exists D i,
    files Examples.w_full !! "CHANGELOG.md" = Some D /\
    Text.find unreleased_marker D = Some i /\
    2 <= Text.count_nl
           (Text.slice_from (i + String.length unreleased_marker) D).
Proof.
  apply (update_changelog_returns_iff Examples.w_full
           (update_changelog Examples.entry Examples.w_full).2
           Examples.entry (Ok tt));
    [vm_compute; reflexivity | reflexivity].
Defined.

(** X5.  Two updates in a row both land at the same offset: the second
    entry is put in above the first, and the text before and after the two
    blocks is that of the original changelog. *)
Theorem update_changelog_twice
    (w w1 : World) (first second D : string) :
  files w !! "CHANGELOG.md" = Some D ->
  update_changelog first w = (Ok tt, w1) ->
  exists i p w2,
    Regex.search unreleased_re D = Some (i, p) /\
    update_changelog second w1 = (Ok tt, w2) /\
    files w2 !! "CHANGELOG.md" =
      Some (Text.slice_to p D +:+ Splice.block second +:+
            Splice.block first +:+ Text.slice_from p D).
Proof.
  intros Hfile Hrun.
  destruct (Changelog.update_inv _ _ _ _ Hfile Hrun) as (i & p & Hsearch & ->).
  pose proof (RegexFacts.search_le _ _ _ _ Hsearch) as Hle.
  pose proof (Unreleased.search_stable D
                (Splice.block first +:+ Text.slice_from p D) i p Hsearch)
    as Hstable.
  set (D1 := Text.slice_to p D +:+ Splice.block first +:+
             Text.slice_from p D) in *.
  assert (Hfile1 : files (Splice.written D1 w) !! "CHANGELOG.md" = Some D1)
    by apply lookup_insert_eq.
  pose proof (Changelog.update_found _ second _ _ _ Hfile1 Hstable) as Hrun2.
  exists i, p, (Splice.written
                  (Text.slice_to p D1 +:+ Splice.block second +:+
                   Text.slice_from p D1) (Splice.written D1 w)).
  split; [exact Hsearch |]. split; [exact Hrun2 |].
  unfold Splice.written at 1. cbn [files emit set_files].
  rewrite lookup_insert_eq. f_equal.
  unfold D1. apply SpliceFacts.splice_again. lia.
Qed.

Lemma update_changelog_twice_witness :
  exists i p w2,
    Regex.search unreleased_re Examples.changelog = Some (i, p) /\
    update_changelog "## [1.2.5]"
      (update_changelog Examples.entry Examples.w_full).2 = (Ok tt, w2) /\
    files w2 !! "CHANGELOG.md" =
      Some (Text.slice_to p Examples.changelog +:+
            Splice.block "## [1.2.5]" +:+ Splice.block Examples.entry +:+
            Text.slice_from p Examples.changelog).
Proof.
  apply (update_changelog_twice Examples.w_full
           (update_changelog Examples.entry Examples.w_full).2
           Examples.entry "## [1.2.5]" Examples.changelog);
    vm_compute; reflexivity.
Defined.

(** ** Whole runs *)

Module CoverRuns.
Import Runs RunsFacts Cover CoverFacts.

Lemma commands_app (l1 l2 : list event) :
  commands (l1 ++ l2) = commands l1 ++ commands l2.
Proof. apply omap_app. Qed.

Lemma commands_quiet (evs : list event) :
  Forall (fun ev => no_command ev = true) evs -> commands evs = [].
Proof.
  induction 1 as [|ev evs Hev _ IH]; [reflexivity |].
  destruct ev; first [discriminate Hev | exact IH].
Qed.

Lemma did_refl (w : World) : did [] w w.
Proof.
  split; [reflexivity |]. exists []. now rewrite List.app_nil_r.
Qed.

Lemma did_trans (cs1 cs2 : list string) (w w1 w2 : World) :
  did cs1 w w1 -> did cs2 w1 w2 -> did (cs1 ++ cs2) w w2.
Proof.
  intros (Henv1 & evs1 & Htr1 & Hc1) (Henv2 & evs2 & Htr2 & Hc2).
  split; [congruence |]. exists (evs1 ++ evs2).
  rewrite Htr2, Htr1, List.app_assoc, commands_app, Hc1, Hc2.
  now split.
Qed.

Lemma did_quiet {A : Type} (m : M A) (cs : list string) (w w1 w2 : World)
    (r : result A) :
  did cs w w1 -> m w1 = (r, w2) -> sound no_command m -> did cs w w2.
Proof.
  intros Hdid Hrun Hm.
  destruct (Hm w1) as (Henv & (evs & Htr & Hev) & _).
  rewrite Hrun in Henv, Htr. cbn [snd] in *.
  rewrite <- (List.app_nil_r cs). apply (did_trans _ _ _ _ _ Hdid).
  split; [exact Henv |]. exists evs. split; [exact Htr |].
  now apply commands_quiet.
Qed.

Lemma did_steps (X : Externals) (steps : list step) (cs : list string)
    (w w1 w2 : World) (u : unit) :
  did cs w w1 -> do_steps X steps w1 = (Ok u, w2) ->
  did (cs ++ commands (steps_events steps)) w w2.
Proof.
  intros Hdid Hrun. apply (did_trans _ _ _ _ _ Hdid).
  destruct (do_steps_outcome X steps _ _ _ Hrun)
    as (done & left & -> & Htr & Henv & ->).
  rewrite List.app_nil_r. split; [exact Henv |]. now exists (steps_events done).
Qed.

Lemma did_pr_details (X : Externals) (base head : string) (cs : list string)
    (w w1 w2 : World) (pr : PrDetails) :
  did cs w w1 -> get_pr_details X base head w1 = (Ok pr, w2) ->
  did (cs ++ ["git log --format='%s%n%b' " +:+ base +:+ ".." +:+ head])
    w w2.
Proof.
  intros Hdid Hrun. apply (did_trans _ _ _ _ _ Hdid).
  unfold get_pr_details, getenv_default in Hrun.
  rewrite !bind_run, run_command_run in Hrun.
  destruct (true && negb _); [discriminate |].
  injection Hrun as _ <-. split; [reflexivity |].
  eexists. split; [apply Commands.trace_ran | reflexivity].
Qed.

Lemma not_false (o : option string) :
  not_ o = false -> exists s, o = Some s /\ s <> "".
Proof.
  destruct o as [s|]; [|discriminate]. cbn [not_]. intros H.
  exists s. split; [reflexivity |]. now apply String.eqb_neq.
Qed.

Lemma publish_steps_eq (X : Externals) (w : World) (vsce ovsx : string) :
  environ w !! "WILDESTAI_AZURE_PUBLISH_PAT" = Some vsce -> vsce <> "" ->
  environ w !! "OPENVSX_TOKEN" = Some ovsx -> ovsx <> "" ->
  publish_extension X w = do_steps X (publish_steps vsce ovsx) w.
Proof.
  intros Hv Hvne Ho Hone. unfold publish_extension, getenv.
  rewrite !bind_run. cbv beta iota. rewrite Hv, Ho. cbn [not_].
  apply String.eqb_neq in Hvne, Hone. rewrite Hvne, Hone. reflexivity.
Qed.

Lemma publish_ok_inv (X : Externals) (w w' : World) :
  publish_extension X w = (Ok tt, w') ->
  exists vsce ovsx,
    environ w !! "WILDESTAI_AZURE_PUBLISH_PAT" = Some vsce /\
    environ w !! "OPENVSX_TOKEN" = Some ovsx /\
    do_steps X (publish_steps vsce ovsx) w = (Ok tt, w').
Proof.
  intros Hrun.
  destruct (not_ (environ w !! "WILDESTAI_AZURE_PUBLISH_PAT")
            || not_ (environ w !! "OPENVSX_TOKEN")) eqn:E.
  - rewrite (Steps.publish_no_token X w E) in Hrun. discriminate.
  - apply orb_false_iff in E. destruct E as [Ev Eo].
    apply not_false in Ev, Eo.
    destruct Ev as (vsce & Hv & Hvne), Eo as (ovsx & Ho & Hone).
    exists vsce, ovsx. split; [exact Hv |]. split; [exact Ho |].
    now rewrite <- (publish_steps_eq X w vsce ovsx).
Qed.

(** Rules for [exits_one]. *)
Lemma exits_one_bind {A B : Type} (m : M A) (f : A -> M B) :
  exits_one m -> (forall a, exits_one (f a)) -> exits_one (m ≫= f).
Proof.
  intros Hm Hf w e. rewrite bind_run.
  destruct (m w) as [[a|e'] w1] eqn:E.
  - apply Hf.
  - cbn [fst]. intros [= ->]. apply (Hm w). now rewrite E.
Qed.

Lemma exits_one_ok {A : Type} (m : M A) :
  (forall w, exists a, (m w).1 = Ok a) -> exits_one m.
Proof. intros H w e He. destruct (H w) as [a Ha]. congruence. Qed.

Lemma exits_one_raise {A : Type} (e : exn) :
  exit_code e = 1%Z -> exits_one (@raise A e).
Proof. intros He w e' [= <-]. exact He. Qed.

Lemma exits_one_try {A : Type} (body : M A) (handler : exn -> M A) :
  exits_one body -> (forall e, exits_one (handler e)) ->
  exits_one (try_except body handler).
Proof.
  intros Hb Hh w e. unfold try_except.
  destruct (body w) as [[a|e'] w1] eqn:E; [discriminate |].
  destruct (is_Exception e') eqn:Ex; [apply Hh |].
  cbn [fst]. intros [= ->]. apply (Hb w). now rewrite E.
Qed.

Lemma exits_one_read_file (path : string) : exits_one (read_file path).
Proof.
  intros w e. unfold read_file.
  destruct (files w !! path); [discriminate |]. now intros [= <-].
Qed.

Lemma exits_one_lift {A : Type} (r : (string * string) + A) :
  exits_one (lift r).
Proof.
  destruct r as [[cls msg]|a]; intros w e; [now intros [= <-] | discriminate].
Qed.

Lemma exits_one_create_message (X : Externals) (api_key text : string) :
  exits_one (create_message X api_key text).
Proof.
  intros w e. unfold create_message.
  destruct (messages_create X api_key text) as [[cls msg]|content];
    [now intros [= <-] | discriminate].
Qed.

Lemma exits_one_run_command (X : Externals) (cmd : string) (check : bool) :
  exits_one (run_command X cmd check).
Proof.
  intros w e. rewrite run_command_run.
  destruct (check && negb _); [now intros [= <-] | discriminate].
Qed.

Ltac exits_one_steps :=
  repeat (cbv beta; first
    [ apply exits_one_run_command
    | apply exits_one_read_file
    | apply exits_one_lift
    | apply exits_one_create_message
    | apply exits_one_raise; reflexivity
    | apply exits_one_ok; intros ?; eexists; reflexivity
    | apply exits_one_try; [|intros ?]
    | apply exits_one_bind; [|intros ?]
    | match goal with
      | |- exits_one (if ?c then _ else _) => destruct c
      | |- exits_one (match ?x with _ => _ end) => destruct x
      end ]).

Lemma main_exits_one (X : Externals) : exits_one (main X).
Proof.
  unfold main. Steps.sound_unfold. unfold sys_exit.
  exits_one_steps.
Qed.

Lemma main_footprint (X : Externals) : sound footprint (main X).
Proof. unfold main. Steps.sound_auto. Qed.

(** The trace of the script from the soundness of [main]. *)
Lemma script_sound (X : Externals) (P : event -> bool) (w : World) :
  (forall ev, is_output ev = true -> P ev = true) ->
  sound P (main X) ->
  exists evs, trace (script X w).2 = trace w ++ evs /\
              Forall (fun ev => P ev = true) evs.
Proof.
  intros Hout Hm. destruct (Hm w) as (_ & (evs & Htr & Hev) & _).
  unfold script. destruct (main X w) as [[[]|e] w1]; cbn [snd] in *.
  - now exists evs.
  - destruct e as [code|cmd rc out err|cls msg]; cbn [snd].
    + now exists evs.
    + eexists (evs ++ [_]). cbn [emit trace].
      rewrite Htr, List.app_assoc. split; [reflexivity |].
      apply Forall_app. split; [exact Hev |].
      constructor; [now apply Hout | constructor].
    + eexists (evs ++ [_]). cbn [emit trace].
      rewrite Htr, List.app_assoc. split; [reflexivity |].
      apply Forall_app. split; [exact Hev |].
      constructor; [now apply Hout | constructor].
Qed.

End CoverRuns.

